(** * eit-db: the condition model and the SQL query constructor

    A shallow embedding of the query-builder layer of package [db]:
    the [Condition] interface with its three built-in implementations
    ([SimpleCondition], [CompositeCondition], [NotCondition]), the
    [ConditionTranslator] interface, the condition factory functions and
    the capability declaration of a provider.

    Go values of type [interface{}] are embedded as the inductive type
    [value]; a Go [error] is the message it carries; a method that
    returns [(string, []interface{}, error)] returns a Rocq triple, with
    [None] for a nil error and [[]] for a nil slice.  A translator is a
    Go object with state of its own (the SQL translator keeps an argument
    counter behind a pointer), so its methods are state transformers that
    may also panic. *)

From Stdlib Require Import List String Ascii ZArith Arith Lia Bool.
From Stdlib Require Import DecimalString.
Import ListNotations.

Set Warnings "-register-all".

Local Open Scope list_scope.
Local Open Scope string_scope.

(** ** Calls that may panic and that thread the translator's state *)

Inductive outcome (St A : Type) : Type :=
| Panic : outcome St A
| Return : A -> St -> outcome St A.

Arguments Panic {St A}.
Arguments Return {St A} _ _.

Definition M (St A : Type) : Type := St -> outcome St A.

Definition ret {St A} (a : A) : M St A := fun s => Return a s.

Definition bind {St A B} (m : M St A) (k : A -> M St B) : M St B :=
  fun s => match m s with
           | Panic => Panic
           | Return a s' => k a s'
           end.

Definition panic {St A} : M St A := fun _ => Panic.

Definition get {St} : M St St := fun s => Return s s.

Definition put {St} (s : St) : M St unit := fun _ => Return tt s.

Declare Scope go_scope.
Delimit Scope go_scope with go.
Notation "x <- m ;; k" := (bind m (fun x => k))
  (at level 61, m at next level, right associativity) : go_scope.
Notation "' pat <- m ;; k" := (bind m (fun x => match x with pat => k end))
  (at level 61, pat pattern, m at next level, right associativity) : go_scope.

Module db.

(** ** Values, errors and translation results *)

(** A Go [interface{}] value, as far as the query builder stores and
    forwards it. *)
Inductive value : Type :=
| VNil : value
| VBool : bool -> value
| VInt : Z -> value
| VString : string -> value
| VSlice : list value -> value.

Definition error : Type := string.

(** What [Translate], [TranslateCondition] and [TranslateComposite]
    return: the SQL fragment, its arguments and the error. *)
Definition translation : Type := (string * list value * option error)%type.

(** ** The Condition interface and its implementations *)

(** [NilCondition] is the nil interface value: a caller can hand it to
    [Not], [And] or [Or] like any other condition. *)
Inductive Condition : Type :=
| SimpleCondition (Field Operator : string) (Value : value)
| CompositeCondition (Operator : string) (Conditions : list Condition)
| NotCondition (inner : Condition)
| NilCondition.

Record ConditionTranslator (St : Type) : Type := {
  TranslateCondition : Condition -> M St translation;
  TranslateComposite : string -> list Condition -> M St translation
}.

Arguments TranslateCondition {St} _ _ _.
Arguments TranslateComposite {St} _ _ _ _.

(** [Type()]; calling a method on the nil interface panics. *)
Definition Type_ (c : Condition) : option string :=
  match c with
  | SimpleCondition _ _ _ => Some "simple"
  | CompositeCondition _ _ => Some "composite"
  | NotCondition _ => Some "not"
  | NilCondition => None
  end.

(** [Translate(translator)] of the three implementations. *)
Fixpoint Translate {St : Type} (c : Condition)
    (translator : ConditionTranslator St) : M St translation :=
  match c with
  | SimpleCondition _ _ _ => TranslateCondition translator c
  | CompositeCondition Operator Conditions =>
      TranslateComposite translator Operator Conditions
  | NotCondition inner =>
      ('(innerSQL, args, err) <- Translate inner translator ;;
       match err with
       | Some e => ret ("", [], Some e)
       | None => ret ("NOT (" ++ innerSQL ++ ")", args, None)
       end)%go
  | NilCondition => panic
  end.

(** Induction over a condition tree, with the children of a composite
    covered by [Forall]. *)
Section ConditionInduction.

Variable P : Condition -> Prop.
Hypothesis Hsimple : forall field op v, P (SimpleCondition field op v).
Hypothesis Hcomposite :
  forall op cs, Forall P cs -> P (CompositeCondition op cs).
Hypothesis Hnot : forall inner, P inner -> P (NotCondition inner).
Hypothesis Hnil : P NilCondition.

Fixpoint Condition_tree_ind (c : Condition) : P c :=
  match c with
  | SimpleCondition field op v => Hsimple field op v
  | CompositeCondition op cs =>
      Hcomposite op cs
        ((fix children (l : list Condition) : Forall P l :=
            match l with
            | [] => Forall_nil P
            | c' :: l' => Forall_cons c' (Condition_tree_ind c') (children l')
            end) cs)
  | NotCondition inner => Hnot inner (Condition_tree_ind inner)
  | NilCondition => Hnil
  end.

End ConditionInduction.

(** ** Condition factory functions *)

Definition Eq (field : string) (v : value) : Condition :=
  SimpleCondition field "eq" v.

Definition Ne (field : string) (v : value) : Condition :=
  SimpleCondition field "ne" v.

Definition Gt (field : string) (v : value) : Condition :=
  SimpleCondition field "gt" v.

Definition Lt (field : string) (v : value) : Condition :=
  SimpleCondition field "lt" v.

Definition Gte (field : string) (v : value) : Condition :=
  SimpleCondition field "gte" v.

Definition Lte (field : string) (v : value) : Condition :=
  SimpleCondition field "lte" v.

(** [values] is the variadic parameter: the slice of the arguments
    supplied, empty when none is. *)
Definition In (field : string) (values : list value) : Condition :=
  SimpleCondition field "in" (VSlice values).

Definition Between (field : string) (min max : value) : Condition :=
  SimpleCondition field "between" (VSlice [min; max]).

Definition Like (field : string) (pattern : string) : Condition :=
  SimpleCondition field "like" (VString pattern).

Definition And (conditions : list Condition) : Condition :=
  CompositeCondition "and" conditions.

Definition Or (conditions : list Condition) : Condition :=
  CompositeCondition "or" conditions.

Definition Not (condition : Condition) : Condition :=
  NotCondition condition.

(** ** Capability declaration *)

Record QueryBuilderCapabilities : Type := {
  SupportsEq : bool;
  SupportsNe : bool;
  SupportsGt : bool;
  SupportsLt : bool;
  SupportsGte : bool;
  SupportsLte : bool;
  SupportsIn : bool;
  SupportsBetween : bool;
  SupportsLike : bool;
  SupportsAnd : bool;
  SupportsOr : bool;
  SupportsNot : bool;
  SupportsSelect : bool;
  SupportsOrderBy : bool;
  SupportsLimit : bool;
  SupportsOffset : bool;
  SupportsJoin : bool;
  SupportsSubquery : bool;
  SupportsQueryPlan : bool;
  SupportsIndex : bool;
  SupportsNativeQuery : bool;
  NativeQueryLang : string;
  Description : string
}.

(** The literal leaves [NativeQueryLang] out: it has Go's zero value. *)
Definition DefaultQueryBuilderCapabilities : QueryBuilderCapabilities := {|
  SupportsEq := true;
  SupportsNe := true;
  SupportsGt := true;
  SupportsLt := true;
  SupportsGte := true;
  SupportsLte := true;
  SupportsIn := true;
  SupportsBetween := true;
  SupportsLike := true;
  SupportsAnd := true;
  SupportsOr := true;
  SupportsNot := true;
  SupportsSelect := true;
  SupportsOrderBy := true;
  SupportsLimit := true;
  SupportsOffset := true;
  SupportsJoin := true;
  SupportsSubquery := true;
  SupportsQueryPlan := true;
  SupportsIndex := true;
  SupportsNativeQuery := false;
  NativeQueryLang := "";
  Description := "Default SQL Query Builder"
|}.

End db.

(** ** The SQL query constructor

    The dialects, the SQL translator and [SQLQueryConstructor] live
    outside the files embedded above, which hold only their tests and
    their documentation; they are modelled from the specification of the
    query engine. *)

Module sql.
Import db.

(** *** Rendered SQL as a token sequence *)

(** Modelled from the spec: the SQL text that the translator and [Build]
    render (their implementation is not among the source files), kept as
    the sequence of its tokens: parameter markers, and everything else
    (keywords, punctuation and quoted identifiers). *)
Inductive token : Type :=
| Text (s : string)
| Placeholder (s : string).

Definition fragment : Type := list token.

Definition tokenText (t : token) : string :=
  match t with
  | Text s => s
  | Placeholder s => s
  end.

(** The SQL text of a fragment: its tokens one after the other. *)
Fixpoint text (f : fragment) : string :=
  match f with
  | [] => ""
  | t :: f' => tokenText t ++ text f'
  end.

(** The parameter markers of a fragment, in order of appearance. *)
Fixpoint placeholders (f : fragment) : list string :=
  match f with
  | [] => []
  | Text _ :: f' => placeholders f'
  | Placeholder s :: f' => s :: placeholders f'
  end.

(** [strings.Join] on fragments: the separator is plain text. *)
Fixpoint joinFragments (sep : string) (fs : list fragment) : fragment :=
  match fs with
  | [] => []
  | [f] => f
  | f :: fs' => (f ++ Text sep :: joinFragments sep fs')%list
  end.

(** The decimal digits of an index and of a bound. *)
Definition decimal (n : nat) : string :=
  NilEmpty.string_of_uint (Nat.to_uint n).

Definition decimalZ (z : Z) : string :=
  NilZero.string_of_int (Z.to_int z).

(** *** Dialects *)

(** Modelled from the spec: the dialect strategy object, whose interface
    is documented and whose implementations are not among the source
    files.  The index of [GetPlaceholder] is 1-based.  [QuoteValue] is
    left out: the parameterized path never calls it. *)
Record SQLDialect : Type := {
  Name : string;
  QuoteIdentifier : string -> string;
  GetPlaceholder : nat -> string;
  GenerateLimitOffset : option Z -> option Z -> string
}.

(** Modelled from the spec: [QuoteIdentifier] wraps the name in the
    quote character [q] of the dialect and doubles every [q] inside. *)
Fixpoint escapeQuote (q : ascii) (s : string) : string :=
  match s with
  | EmptyString => EmptyString
  | String c s' =>
      if Ascii.eqb c q then String q (String q (escapeQuote q s'))
      else String c (escapeQuote q s')
  end.

Definition quoteWith (q : ascii) (name : string) : string :=
  String q (escapeQuote q name ++ String q EmptyString).

Definition backtick : ascii := ascii_of_nat 96.
Definition doubleQuote : ascii := ascii_of_nat 34.

(** Modelled from the spec: [GenerateLimitOffset], with one policy for
    all dialects: [LIMIT n], [OFFSET m] or [LIMIT n OFFSET m], and the
    empty string when both bounds are nil. *)
Definition limitOffsetClause (limit offset : option Z) : string :=
  match limit, offset with
  | None, None => ""
  | Some l, None => "LIMIT " ++ decimalZ l
  | None, Some o => "OFFSET " ++ decimalZ o
  | Some l, Some o => "LIMIT " ++ decimalZ l ++ " OFFSET " ++ decimalZ o
  end.

(** Modelled from the spec: the MySQL dialect, with backtick identifiers
    and the positional marker, which ignores the index. *)
Definition NewMySQLDialect : SQLDialect := {|
  Name := "mysql";
  QuoteIdentifier := quoteWith backtick;
  GetPlaceholder := fun _ => "?";
  GenerateLimitOffset := limitOffsetClause
|}.

(** Modelled from the spec: the PostgreSQL dialect, with double-quote
    identifiers and numbered markers that render the exact index. *)
Definition NewPostgreSQLDialect : SQLDialect := {|
  Name := "postgres";
  QuoteIdentifier := quoteWith doubleQuote;
  GetPlaceholder := fun index => "$" ++ decimal index;
  GenerateLimitOffset := limitOffsetClause
|}.

(** Modelled from the spec: the SQLite dialect, with backtick
    identifiers and the positional marker. *)
Definition NewSQLiteDialect : SQLDialect := {|
  Name := "sqlite";
  QuoteIdentifier := quoteWith backtick;
  GetPlaceholder := fun _ => "?";
  GenerateLimitOffset := limitOffsetClause
|}.

(** The two placeholder schemes: markers that render the index after a
    dollar sign, and markers that are a question mark whatever the
    index. *)
Definition numbered (d : SQLDialect) : Prop :=
  forall index, GetPlaceholder d index = "$" ++ decimal index.

Definition positional (d : SQLDialect) : Prop :=
  forall index, GetPlaceholder d index = "?".

(** *** The SQL translator *)

(** What the SQL translator returns, before it is flattened to text. *)
Definition rendering : Type := (fragment * list value * option error)%type.

Definition failWith {St} (msg : string) : M St rendering :=
  ret ([], [], Some msg).

(** Modelled from the spec: the state of the SQL translator is its
    argument counter; a placeholder takes the current value of the
    counter and increments it. *)
Definition nextPlaceholder (d : SQLDialect) : M nat token :=
  (i <- get ;; _ <- put (S i) ;; ret (Placeholder (GetPlaceholder d i)))%go.

(** Modelled from the spec: one placeholder per element of an [in]
    list, in order. *)
Fixpoint placeholdersFor (d : SQLDialect) (vs : list value)
    : M nat (list fragment) :=
  match vs with
  | [] => ret []
  | _ :: vs' =>
      (p <- nextPlaceholder d ;;
       ps <- placeholdersFor d vs' ;;
       ret ([p] :: ps))%go
  end.

(** Modelled from the spec: the SQL symbol of the operators that take a
    single argument. *)
Definition comparisonSymbol (op : string) : option string :=
  if op =? "eq" then Some "="
  else if op =? "ne" then Some "!="
  else if op =? "gt" then Some ">"
  else if op =? "lt" then Some "<"
  else if op =? "gte" then Some ">="
  else if op =? "lte" then Some "<="
  else if op =? "like" then Some "LIKE"
  else None.

(** Modelled from the spec: the translator's algorithm for a simple
    condition.  An [in] without values renders the predicate that never
    matches, as the spec recommends; a value of the wrong shape and an
    unknown operator are errors, found before any placeholder is
    taken. *)
Definition translateSimple (d : SQLDialect) (field op : string) (v : value)
    : M nat rendering :=
  let q := QuoteIdentifier d field in
  match comparisonSymbol op with
  | Some sym =>
      (p <- nextPlaceholder d ;;
       ret ([Text (q ++ " " ++ sym ++ " "); p], [v], None))%go
  | None =>
      if op =? "in" then
        match v with
        | VSlice [] => ret ([Text "1=0"], [], None)
        | VSlice vs =>
            (ps <- placeholdersFor d vs ;;
             ret ((Text (q ++ " IN (") :: joinFragments ", " ps
                     ++ [Text ")"])%list, vs, None))%go
        | _ => failWith "in requires a list of values"
        end
      else if op =? "between" then
        match v with
        | VSlice [lo; hi] =>
            (p1 <- nextPlaceholder d ;;
             p2 <- nextPlaceholder d ;;
             ret ([Text (q ++ " BETWEEN "); p1; Text " AND "; p2],
                  [lo; hi], None))%go
        | _ => failWith "between requires exactly two values"
        end
      else failWith ("unsupported operator: " ++ op)
  end.

(** Modelled from the spec: the conditions of a list translated in
    order on the shared counter; the first error aborts the whole list
    and leaves no partial SQL. *)
Definition translateEach (tr : Condition -> M nat rendering)
    : list Condition -> M nat (list fragment * list value * option error) :=
  fix each (cs : list Condition) :=
    match cs with
    | [] => ret ([], [], None)
    | c :: cs' =>
        ('(f, a, err) <- tr c ;;
         match err with
         | Some e => ret ([], [], Some e)
         | None =>
             ('(fs, a', err') <- each cs' ;;
              match err' with
              | Some e => ret ([], [], Some e)
              | None => ret (f :: fs, (a ++ a')%list, None)
              end)
         end)%go
    end.

(** Modelled from the spec: the keyword that joins the children. *)
Definition joinKeyword (op : string) : option string :=
  if op =? "and" then Some " AND "
  else if op =? "or" then Some " OR "
  else None.

(** Modelled from the spec: the translator's algorithm for a composite:
    the children joined by the keyword inside one pair of parentheses,
    their arguments concatenated; an empty list is an error. *)
Definition translateComposite (tr : Condition -> M nat rendering)
    (op : string) (cs : list Condition) : M nat rendering :=
  match joinKeyword op with
  | None => failWith ("unsupported composite operator: " ++ op)
  | Some kw =>
      match cs with
      | [] => failWith "empty condition list"
      | _ =>
          ('(fs, args, err) <- translateEach tr cs ;;
           match err with
           | Some e => ret ([], [], Some e)
           | None =>
               ret ((Text "(" :: joinFragments kw fs ++ [Text ")"])%list,
                    args, None)
           end)%go
      end
  end.

(** Modelled from the spec: the translator's recursion over a condition
    tree, with the wrapping of a negation; the nil condition panics, as
    a method call on it does. *)
Fixpoint translateTree (d : SQLDialect) (c : Condition) : M nat rendering :=
  match c with
  | SimpleCondition field op v => translateSimple d field op v
  | CompositeCondition op cs => translateComposite (translateTree d) op cs
  | NotCondition inner =>
      ('(f, args, err) <- translateTree d inner ;;
       match err with
       | Some e => ret ([], [], Some e)
       | None => ret ((Text "NOT (" :: f ++ [Text ")"])%list, args, None)
       end)%go
  | NilCondition => panic
  end.

(** The text of a rendering, as the translator interface returns it. *)
Definition textual (m : M nat rendering) : M nat translation :=
  ('(f, args, err) <- m ;; ret (text f, args, err))%go.

(** Modelled from the spec: [DefaultSQLTranslator], the implementation
    of the translator interface that [Translate] is handed. *)
Definition DefaultSQLTranslator (d : SQLDialect) : ConditionTranslator nat := {|
  TranslateCondition := fun c => textual (translateTree d c);
  TranslateComposite := fun op cs =>
    textual (translateComposite (translateTree d) op cs)
|}.

(** The bookkeeping of one call that starts with the counter at [n]:
    on success the counter has advanced by the number of arguments and
    the placeholders are those of the indexes [n], [n+1], ... in order;
    on error nothing is rendered. *)
Definition wellNumbered {X : Type} (marks : list X -> list string)
    (d : SQLDialect) (n : nat)
    (r : outcome nat (list X * list value * option error)) : Prop :=
  match r with
  | Panic => True
  | Return (f, args, None) n' =>
      n' = n + List.length args
      /\ marks f = map (GetPlaceholder d) (seq n (List.length args))
  | Return (f, args, Some _) _ => f = [] /\ args = []
  end.

(** The placeholders of a list of fragments, in order. *)
Definition placeholdersOfAll (fs : list fragment) : list string :=
  List.concat (map placeholders fs).

(** *** The query constructor *)

(** Modelled from the spec: the state of [SQLQueryConstructor], the
    builder behind the query constructor interface.  The bound schema
    contributes its table name only. *)
Record SQLQueryConstructor : Type := {
  schema : string;
  dialect : SQLDialect;
  selectedCols : list string;
  conditions : list Condition;
  orderBys : list (string * string);
  limitVal : option Z;
  offsetVal : option Z
}.

(** Modelled from the spec: a fresh constructor and the fluent
    operations, each returning the constructor with one part of the
    state changed. *)
Definition NewSQLQueryConstructor (table : string) (d : SQLDialect)
    : SQLQueryConstructor := {|
  schema := table;
  dialect := d;
  selectedCols := [];
  conditions := [];
  orderBys := [];
  limitVal := None;
  offsetVal := None
|}.

Definition withConditions (qc : SQLQueryConstructor) (cs : list Condition)
    : SQLQueryConstructor := {|
  schema := schema qc;
  dialect := dialect qc;
  selectedCols := selectedCols qc;
  conditions := cs;
  orderBys := orderBys qc;
  limitVal := limitVal qc;
  offsetVal := offsetVal qc
|}.

Definition Where (qc : SQLQueryConstructor) (c : Condition) :=
  withConditions qc (conditions qc ++ [c])%list.

Definition WhereAll (qc : SQLQueryConstructor) (cs : list Condition) :=
  withConditions qc (conditions qc ++ [CompositeCondition "and" cs])%list.

Definition WhereAny (qc : SQLQueryConstructor) (cs : list Condition) :=
  withConditions qc (conditions qc ++ [CompositeCondition "or" cs])%list.

Definition Select (qc : SQLQueryConstructor) (fields : list string)
    : SQLQueryConstructor := {|
  schema := schema qc;
  dialect := dialect qc;
  selectedCols := fields;
  conditions := conditions qc;
  orderBys := orderBys qc;
  limitVal := limitVal qc;
  offsetVal := offsetVal qc
|}.

Definition OrderBy (qc : SQLQueryConstructor) (field direction : string)
    : SQLQueryConstructor := {|
  schema := schema qc;
  dialect := dialect qc;
  selectedCols := selectedCols qc;
  conditions := conditions qc;
  orderBys := (orderBys qc ++ [(field, direction)])%list;
  limitVal := limitVal qc;
  offsetVal := offsetVal qc
|}.

Definition Limit (qc : SQLQueryConstructor) (count : Z)
    : SQLQueryConstructor := {|
  schema := schema qc;
  dialect := dialect qc;
  selectedCols := selectedCols qc;
  conditions := conditions qc;
  orderBys := orderBys qc;
  limitVal := Some count;
  offsetVal := offsetVal qc
|}.

Definition Offset (qc : SQLQueryConstructor) (count : Z)
    : SQLQueryConstructor := {|
  schema := schema qc;
  dialect := dialect qc;
  selectedCols := selectedCols qc;
  conditions := conditions qc;
  orderBys := orderBys qc;
  limitVal := limitVal qc;
  offsetVal := Some count
|}.

(** Modelled from the spec: the clauses of the statement. *)
Definition negative (bound : option Z) : bool :=
  match bound with
  | Some n => (n <? 0)%Z
  | None => false
  end.

Definition selectList (d : SQLDialect) (cols : list string) : string :=
  match cols with
  | [] => "*"
  | _ => String.concat ", " (map (QuoteIdentifier d) cols)
  end.

Definition orderTerm (d : SQLDialect) (t : string * string) : string :=
  QuoteIdentifier d (fst t) ++ " " ++ snd t.

Definition whereClause (fs : list fragment) : fragment :=
  match fs with
  | [] => []
  | _ => Text " WHERE " :: joinFragments " AND " fs
  end.

Definition orderByClause (d : SQLDialect) (terms : list (string * string))
    : fragment :=
  match terms with
  | [] => []
  | _ => [Text (" ORDER BY " ++ String.concat ", " (map (orderTerm d) terms))]
  end.

Definition limitOffsetTokens (d : SQLDialect) (limit offset : option Z)
    : fragment :=
  match limit, offset with
  | None, None => []
  | _, _ => [Text (" " ++ GenerateLimitOffset d limit offset)]
  end.

(** Modelled from the spec: the statement assembled by [Build], before
    it is flattened to text.  The top-level conditions are joined by
    [AND]; a negative bound is an error. *)
Definition buildStatement (qc : SQLQueryConstructor) : M nat rendering :=
  let d := dialect qc in
  if negative (limitVal qc) || negative (offsetVal qc)
  then failWith "limit and offset must not be negative"
  else
    ('(fs, args, err) <- translateEach (translateTree d) (conditions qc) ;;
     match err with
     | Some e => ret ([], [], Some e)
     | None =>
         ret ((Text ("SELECT " ++ selectList d (selectedCols qc)
                       ++ " FROM " ++ QuoteIdentifier d (schema qc))
                 :: whereClause fs
                 ++ orderByClause d (orderBys qc)
                 ++ limitOffsetTokens d (limitVal qc) (offsetVal qc))%list,
              args, None)
     end)%go.

(** A call that starts from a counter of its own and drops it at the
    end; [None] is a panic. *)
Definition runFresh {A} (m : M nat A) : option A :=
  match m 1 with
  | Panic => None
  | Return a _ => Some a
  end.

(** Modelled from the spec: the token sequence of the statement. *)
Definition BuildTokens (qc : SQLQueryConstructor) : option rendering :=
  runFresh (buildStatement qc).

(** Modelled from the spec: [Build], with a fresh argument counter per
    call, 1-based. *)
Definition Build (qc : SQLQueryConstructor) : option translation :=
  runFresh (textual (buildStatement qc)).

End sql.


(** ** Go maps with string keys

    A map is kept as the list of its bindings, the most recent binding of
    a key first; a key bound twice in the list counts once, with its
    first binding.  [entries] lists each key once: it is what a [range]
    loop visits, in an order that the properties below do not depend
    on. *)

Module smap.
Section Map.

Context {V : Type}.

Definition t : Type := list (string * V).

Definition empty : t := [].

(** [m[k]] with the comma-ok flag: [None] when [k] is absent. *)
Fixpoint lookup (k : string) (m : t) : option V :=
  match m with
  | [] => None
  | (k', v) :: m' => if k =? k' then Some v else lookup k m'
  end.

(** [delete(m, k)]. *)
Fixpoint delete (k : string) (m : t) : t :=
  match m with
  | [] => []
  | (k', v) :: m' =>
      if k =? k' then delete k m' else (k', v) :: delete k m'
  end.

(** [m[k] = v]. *)
Definition insert (k : string) (v : V) (m : t) : t :=
  (k, v) :: delete k m.

(** [len(m) == 0]. *)
Definition isEmpty (m : t) : bool :=
  match m with
  | [] => true
  | _ :: _ => false
  end.

Fixpoint entriesFrom (seen : list string) (m : t) : list (string * V) :=
  match m with
  | [] => []
  | (k, v) :: m' =>
      if existsb (String.eqb k) seen then entriesFrom seen m'
      else (k, v) :: entriesFrom (k :: seen) m'
  end.

(** The bindings a [range] loop visits: every key once. *)
Definition entries (m : t) : list (string * V) := entriesFrom [] m.

End Map.

Arguments t : clear implicits.

End smap.

(** ** Schemas, validators and value conversion

    Pointers handed to the functions below are not nil, and an object
    reached through a pointer is not modified behind the back of the
    structure that holds it.  A value of type [interface{}] carries its
    dynamic type here, since validators and conversions switch on it.
    Floating-point numbers, times and the two conversions between
    integers and floats are those of the Go runtime and are taken as
    given. *)

Class GoRuntime : Type := {
  float64 : Type;
  Time : Type;
  (** [int64(x)] *)
  truncate : float64 -> Z;
  (** [float64(n)] *)
  ofInt64 : Z -> float64;
  (** [time.Parse(time.RFC3339, s)]: the time and the error *)
  parseRFC3339 : string -> Time * option string
}.

(** A runtime to evaluate the functions on: the floats are the whole
    numbers, a time is the text it was written as, and the empty text
    does not parse. *)
Definition wholeNumbers : GoRuntime := {|
  float64 := Z;
  Time := string;
  truncate := fun x => x;
  ofInt64 := fun n => n;
  parseRFC3339 := fun s =>
    (s, if s =? "" then Some "cannot parse as a time" else None)
|}.

Module schema.
Section Schema.

Context {rt : GoRuntime}.

Inductive intKind : Type := KInt | KInt8 | KInt16 | KInt32 | KInt64.

Inductive floatKind : Type := KFloat32 | KFloat64.

(** A value of type [interface{}]: nil, or a value with its dynamic
    type.  A float32 is kept as the float64 of the same value.  [AOther]
    stands for a value of any other type, named as [reflect] prints
    it. *)
Inductive any : Type :=
| ANil
| ABool (b : bool)
| AInt (k : intKind) (n : Z)
| AFloat (k : floatKind) (x : float64)
| AString (s : string)
| ATime (t : Time)
| AOther (typeName : string) (repr : string).

(** The errors of the package, and [ErrorString] for an error made
    elsewhere, known by its message. *)
Inductive goerror : Type :=
| TypeConversionError (From To : string)
| ValidationError (Code Message : string)
| ErrorString (msg : string).

(** [Error()] *)
Definition Error (e : goerror) : string :=
  match e with
  | TypeConversionError From To => "cannot convert " ++ From ++ " to " ++ To
  | ValidationError Code Message => Code ++ ": " ++ Message
  | ErrorString msg => msg
  end.

Definition NewValidationError (code message : string) : goerror :=
  ValidationError code message.

Definition FieldType : Type := string.

Definition TypeString : FieldType := "string".
Definition TypeInteger : FieldType := "integer".
Definition TypeFloat : FieldType := "float".
Definition TypeBoolean : FieldType := "boolean".
Definition TypeTime : FieldType := "time".
Definition TypeBinary : FieldType := "binary".
Definition TypeDecimal : FieldType := "decimal".
Definition TypeMap : FieldType := "map".
Definition TypeArray : FieldType := "array".
Definition TypeJSON : FieldType := "json".

(** *** Conversion of an integer to a string

    [string(rune(n))] keeps the low 32 bits of [n] as a signed number
    and gives the UTF-8 encoding of that code point, or of U+FFFD when
    it is no valid code point. *)

Definition wrap32 (n : Z) : Z :=
  ((n + 2147483648) mod 4294967296 - 2147483648)%Z.

Definition byte (b : Z) : string :=
  String (ascii_of_N (Z.to_N b)) EmptyString.

Definition continuation (cp shift : Z) : string :=
  byte (Z.lor 128 (Z.land (Z.shiftr cp shift) 63)).

Definition utf8 (cp : Z) : string :=
  if (cp <? 128)%Z then byte cp
  else if (cp <? 2048)%Z then
    byte (Z.lor 192 (Z.shiftr cp 6)) ++ continuation cp 0
  else if (cp <? 65536)%Z then
    byte (Z.lor 224 (Z.shiftr cp 12)) ++ continuation cp 6
      ++ continuation cp 0
  else
    byte (Z.lor 240 (Z.shiftr cp 18)) ++ continuation cp 12
      ++ continuation cp 6 ++ continuation cp 0.

Definition validRune (r : Z) : bool :=
  ((0 <=? r) && (r <? 55296) || (57343 <? r) && (r <=? 1114111))%Z.

Definition runeString (n : Z) : string :=
  let r := wrap32 n in
  if validRune r then utf8 r else utf8 65533.

(** [fmt.Sprintf] of an integer under the verb d. *)
Definition itoa (n : Z) : string :=
  NilZero.string_of_int (Z.to_int n).

(** *** Validators *)

(** The implementations of the [Validator] interface: those of the
    package, but for the one that matches e-mail addresses against a
    regular expression, and [CustomValidator] for one supplied by the
    caller, which is taken to be a function of the value.
    [UniqueValidator] also holds a schema, which its method never
    reads. *)
Inductive Validator : Type :=
| RequiredValidator
| LengthValidator (Min Max : Z)
| PatternValidator (Pattern : string)
| UniqueValidator (fieldName : string)
| MinLengthValidator (Length : Z)
| MaxLengthValidator (Length : Z)
| CustomValidator (validate : any -> option goerror).

Definition RequiredValidator_Validate (value : any) : option goerror :=
  match value with
  | ANil | AString "" =>
      Some (NewValidationError "required" "字段为必填项")
  | _ => None
  end.

Definition LengthValidator_Validate (Min Max : Z) (value : any)
    : option goerror :=
  match value with
  | AString str =>
      let len := Z.of_nat (String.length str) in
      if ((0 <? Min) && (len <? Min))%Z then
        Some (NewValidationError "length"
                ("字段长度不能小于 " ++ runeString Min))
      else if ((0 <? Max) && (Max <? len))%Z then
        Some (NewValidationError "length"
                ("字段长度不能大于 " ++ runeString Max))
      else None
  | _ => Some (NewValidationError "length" "字段类型必须为字符串")
  end.

Definition PatternValidator_Validate (Pattern : string) (value : any)
    : option goerror := None.

Definition UniqueValidator_Validate (fieldName : string) (value : any)
    : option goerror := None.

Definition MinLengthValidator_Validate (Length : Z) (value : any)
    : option goerror :=
  match value with
  | AString str =>
      if (Z.of_nat (String.length str) <? Length)%Z then
        Some (NewValidationError "min_length"
                ("字段长度不能小于 " ++ itoa Length))
      else None
  | _ => Some (NewValidationError "min_length" "字段必须是字符串")
  end.

Definition MaxLengthValidator_Validate (Length : Z) (value : any)
    : option goerror :=
  match value with
  | AString str =>
      if (Length <? Z.of_nat (String.length str))%Z then
        Some (NewValidationError "max_length"
                ("字段长度不能大于 " ++ itoa Length))
      else None
  | _ => Some (NewValidationError "max_length" "字段必须是字符串")
  end.

(** A call of [Validate] through the interface. *)
Definition Validate (v : Validator) (value : any) : option goerror :=
  match v with
  | RequiredValidator => RequiredValidator_Validate value
  | LengthValidator Min Max => LengthValidator_Validate Min Max value
  | PatternValidator Pattern => PatternValidator_Validate Pattern value
  | UniqueValidator fieldName => UniqueValidator_Validate fieldName value
  | MinLengthValidator Length => MinLengthValidator_Validate Length value
  | MaxLengthValidator Length => MaxLengthValidator_Validate Length value
  | CustomValidator validate => validate value
  end.

(** *** Transformers *)

Inductive Transformer : Type :=
| TrimTransformer
| LowercaseTransformer
| CustomTransformer (transform : any -> any * option goerror).

Definition TrimTransformer_Transform (value : any) : any * option goerror :=
  match value with
  | AString str => (AString str, None)
  | _ => (value, None)
  end.

Definition LowercaseTransformer_Transform (value : any)
    : any * option goerror :=
  match value with
  | AString str => (AString str, None)
  | _ => (value, None)
  end.

(** A call of [Transform] through the interface. *)
Definition Transform (t : Transformer) (value : any) : any * option goerror :=
  match t with
  | TrimTransformer => TrimTransformer_Transform value
  | LowercaseTransformer => LowercaseTransformer_Transform value
  | CustomTransformer transform => transform value
  end.

(** *** Fields and the field builder *)

Record Field : Type := {
  Field_Name : string;
  Field_Type : FieldType;
  Field_Default : any;
  Field_Null : bool;
  Field_Primary : bool;
  Field_Autoinc : bool;
  Field_Index : bool;
  Field_Unique : bool;
  Field_Validators : list Validator;
  Field_Transformers : list Transformer
}.

(** The builder holds a pointer to the field it fills in; each method
    updates that field and returns the builder. *)
Record FieldBuilder : Type := { FieldBuilder_field : Field }.

Definition NewField (name : string) (fieldType : FieldType) : FieldBuilder := {|
  FieldBuilder_field := {|
    Field_Name := name;
    Field_Type := fieldType;
    Field_Default := ANil;
    Field_Null := false;
    Field_Primary := false;
    Field_Autoinc := false;
    Field_Index := false;
    Field_Unique := false;
    Field_Validators := [];
    Field_Transformers := []
  |}
|}.

Definition FieldBuilder_Default (fb : FieldBuilder) (value : any)
    : FieldBuilder :=
  let f := FieldBuilder_field fb in {|
  FieldBuilder_field := {|
    Field_Name := Field_Name f;
    Field_Type := Field_Type f;
    Field_Default := value;
    Field_Null := Field_Null f;
    Field_Primary := Field_Primary f;
    Field_Autoinc := Field_Autoinc f;
    Field_Index := Field_Index f;
    Field_Unique := Field_Unique f;
    Field_Validators := Field_Validators f;
    Field_Transformers := Field_Transformers f
  |}
|}.

Definition FieldBuilder_Null (fb : FieldBuilder) (allow : bool)
    : FieldBuilder :=
  let f := FieldBuilder_field fb in {|
  FieldBuilder_field := {|
    Field_Name := Field_Name f;
    Field_Type := Field_Type f;
    Field_Default := Field_Default f;
    Field_Null := allow;
    Field_Primary := Field_Primary f;
    Field_Autoinc := Field_Autoinc f;
    Field_Index := Field_Index f;
    Field_Unique := Field_Unique f;
    Field_Validators := Field_Validators f;
    Field_Transformers := Field_Transformers f
  |}
|}.

Definition FieldBuilder_PrimaryKey (fb : FieldBuilder) : FieldBuilder :=
  let f := FieldBuilder_field fb in {|
  FieldBuilder_field := {|
    Field_Name := Field_Name f;
    Field_Type := Field_Type f;
    Field_Default := Field_Default f;
    Field_Null := Field_Null f;
    Field_Primary := true;
    Field_Autoinc := true;
    Field_Index := Field_Index f;
    Field_Unique := Field_Unique f;
    Field_Validators := Field_Validators f;
    Field_Transformers := Field_Transformers f
  |}
|}.

Definition FieldBuilder_Index (fb : FieldBuilder) : FieldBuilder :=
  let f := FieldBuilder_field fb in {|
  FieldBuilder_field := {|
    Field_Name := Field_Name f;
    Field_Type := Field_Type f;
    Field_Default := Field_Default f;
    Field_Null := Field_Null f;
    Field_Primary := Field_Primary f;
    Field_Autoinc := Field_Autoinc f;
    Field_Index := true;
    Field_Unique := Field_Unique f;
    Field_Validators := Field_Validators f;
    Field_Transformers := Field_Transformers f
  |}
|}.

Definition FieldBuilder_Unique (fb : FieldBuilder) : FieldBuilder :=
  let f := FieldBuilder_field fb in {|
  FieldBuilder_field := {|
    Field_Name := Field_Name f;
    Field_Type := Field_Type f;
    Field_Default := Field_Default f;
    Field_Null := Field_Null f;
    Field_Primary := Field_Primary f;
    Field_Autoinc := Field_Autoinc f;
    Field_Index := Field_Index f;
    Field_Unique := true;
    Field_Validators := Field_Validators f;
    Field_Transformers := Field_Transformers f
  |}
|}.

Definition FieldBuilder_Validate (fb : FieldBuilder) (validator : Validator)
    : FieldBuilder :=
  let f := FieldBuilder_field fb in {|
  FieldBuilder_field := {|
    Field_Name := Field_Name f;
    Field_Type := Field_Type f;
    Field_Default := Field_Default f;
    Field_Null := Field_Null f;
    Field_Primary := Field_Primary f;
    Field_Autoinc := Field_Autoinc f;
    Field_Index := Field_Index f;
    Field_Unique := Field_Unique f;
    Field_Validators := (Field_Validators f ++ [validator])%list;
    Field_Transformers := Field_Transformers f
  |}
|}.

Definition FieldBuilder_Transform (fb : FieldBuilder)
    (transformer : Transformer) : FieldBuilder :=
  let f := FieldBuilder_field fb in {|
  FieldBuilder_field := {|
    Field_Name := Field_Name f;
    Field_Type := Field_Type f;
    Field_Default := Field_Default f;
    Field_Null := Field_Null f;
    Field_Primary := Field_Primary f;
    Field_Autoinc := Field_Autoinc f;
    Field_Index := Field_Index f;
    Field_Unique := Field_Unique f;
    Field_Validators := Field_Validators f;
    Field_Transformers := (Field_Transformers f ++ [transformer])%list
  |}
|}.

Definition FieldBuilder_Build (fb : FieldBuilder) : Field :=
  FieldBuilder_field fb.

(** One call of a builder method, and a chain of calls from left to
    right. *)
Inductive builderCall : Type :=
| CallDefault (value : any)
| CallNull (allow : bool)
| CallPrimaryKey
| CallIndex
| CallUnique
| CallValidate (validator : Validator)
| CallTransform (transformer : Transformer).

Definition call (fb : FieldBuilder) (c : builderCall) : FieldBuilder :=
  match c with
  | CallDefault value => FieldBuilder_Default fb value
  | CallNull allow => FieldBuilder_Null fb allow
  | CallPrimaryKey => FieldBuilder_PrimaryKey fb
  | CallIndex => FieldBuilder_Index fb
  | CallUnique => FieldBuilder_Unique fb
  | CallValidate validator => FieldBuilder_Validate fb validator
  | CallTransform transformer => FieldBuilder_Transform fb transformer
  end.

Definition chain (fb : FieldBuilder) (calls : list builderCall)
    : FieldBuilder :=
  fold_left call calls fb.

(** *** BaseSchema *)

Record BaseSchema : Type := {
  tableName : string;
  fields : smap.t Field;
  fieldList : list Field
}.

Definition NewBaseSchema (name : string) : BaseSchema := {|
  tableName := name;
  fields := smap.empty;
  fieldList := []
|}.

Definition BaseSchema_TableName (s : BaseSchema) : string := tableName s.

Definition BaseSchema_AddField (s : BaseSchema) (field : Field)
    : BaseSchema := {|
  tableName := tableName s;
  fields := smap.insert (Field_Name field) field (fields s);
  fieldList := (fieldList s ++ [field])%list
|}.

Definition BaseSchema_Fields (s : BaseSchema) : list Field := fieldList s.

(** [None] is the nil pointer that the map yields for a missing name. *)
Definition BaseSchema_GetField (s : BaseSchema) (name : string)
    : option Field :=
  smap.lookup name (fields s).

(** The loop returns the first field of the list that is primary. *)
Definition BaseSchema_PrimaryKeyField (s : BaseSchema) : option Field :=
  find Field_Primary (fieldList s).

(** *** Value conversion *)

(** [reflect.TypeOf(value).String()]; it panics on nil. *)
Definition typeName (value : any) : option string :=
  match value with
  | ANil => None
  | ABool _ => Some "bool"
  | AInt KInt _ => Some "int"
  | AInt KInt8 _ => Some "int8"
  | AInt KInt16 _ => Some "int16"
  | AInt KInt32 _ => Some "int32"
  | AInt KInt64 _ => Some "int64"
  | AFloat KFloat32 _ => Some "float32"
  | AFloat KFloat64 _ => Some "float64"
  | AString _ => Some "string"
  | ATime _ => Some "time.Time"
  | AOther name _ => Some name
  end.

(** The default case of the conversions; [None] is the panic. *)
Definition cannotConvert (value : any) (To : string)
    : option (any * option goerror) :=
  match typeName value with
  | None => None
  | Some From => Some (ANil, Some (TypeConversionError From To))
  end.

Definition valueToString (value : any) : any := value.

Definition valueToInt64 (value : any) : option (any * option goerror) :=
  match value with
  | AInt _ n => Some (AInt KInt64 n, None)
  | AFloat _ x => Some (AInt KInt64 (truncate x), None)
  | AString _ => Some (ANil, Some (TypeConversionError "string" "int64"))
  | _ => cannotConvert value "int64"
  end.

Definition valueToFloat64 (value : any) : option (any * option goerror) :=
  match value with
  | AFloat _ x => Some (AFloat KFloat64 x, None)
  | AInt _ n => Some (AFloat KFloat64 (ofInt64 n), None)
  | _ => cannotConvert value "float64"
  end.

Definition valueToBoolean (value : any) : option (any * option goerror) :=
  match value with
  | ABool b => Some (ABool b, None)
  | AString v =>
      Some (ABool ((v =? "true") || (v =? "1") || (v =? "yes")), None)
  | AInt KInt n => Some (ABool (negb (n =? 0)%Z), None)
  | _ => cannotConvert value "bool"
  end.

Definition valueToTime (value : any) : option (any * option goerror) :=
  match value with
  | ATime t => Some (ATime t, None)
  | AString v =>
      let (t, err) := parseRFC3339 v in
      Some (ATime t, option_map ErrorString err)
  | _ => cannotConvert value "time.Time"
  end.

(** [None] is a panic. *)
Definition ConvertValue (value : any) (targetType : FieldType)
    : option (any * option goerror) :=
  match value with
  | ANil => Some (ANil, None)
  | _ =>
      if targetType =? TypeString then Some (valueToString value, None)
      else if targetType =? TypeInteger then valueToInt64 value
      else if targetType =? TypeFloat then valueToFloat64 value
      else if targetType =? TypeBoolean then valueToBoolean value
      else if targetType =? TypeTime then valueToTime value
      else Some (value, None)
  end.

(** *** The schema registry *)

(** [Schema] is an interface and [BaseSchema] its implementation: a
    value of the interface is a schema or nil, here [None]. *)
Definition Schema : Type := option BaseSchema.

Record SchemaRegistry : Type := { schemas : smap.t Schema }.

Definition NewSchemaRegistry : SchemaRegistry := {| schemas := smap.empty |}.

(** [Register] stores what it is given, the nil schema too. *)
Definition SchemaRegistry_Register (r : SchemaRegistry) (name : string)
    (schema : Schema) : SchemaRegistry :=
  {| schemas := smap.insert name schema (schemas r) |}.

(** The map yields nil for a missing name. *)
Definition SchemaRegistry_Get (r : SchemaRegistry) (name : string)
    : Schema :=
  match smap.lookup name (schemas r) with
  | Some schema => schema
  | None => None
  end.

(** The names in the order the loop over the map meets them. *)
Definition SchemaRegistry_GetAllSchemaNames (r : SchemaRegistry)
    : list string :=
  map fst (smap.entries (schemas r)).

(** *** Vocabulary of the statements *)

(** The schema that [NewBaseSchema] and one [AddField] per field of the
    list build. *)
Definition schemaOf (name : string) (fs : list Field) : BaseSchema :=
  fold_left BaseSchema_AddField fs (NewBaseSchema name).

(** The registry that [NewSchemaRegistry] and one [Register] per pair
    of the list build. *)
Definition registryOf (l : list (string * Schema)) : SchemaRegistry :=
  fold_left (fun r p => SchemaRegistry_Register r (fst p) (snd p)) l
            NewSchemaRegistry.

(** The Go type that a failed conversion to a target type names. *)
Definition conversionTarget (targetType : FieldType) : string :=
  if targetType =? TypeInteger then "int64"
  else if targetType =? TypeFloat then "float64"
  else if targetType =? TypeBoolean then "bool"
  else "time.Time".

Definition isPrimaryKeyCall (c : builderCall) : bool :=
  match c with
  | CallPrimaryKey => true
  | _ => false
  end.

Definition validatorsOf (calls : list builderCall) : list Validator :=
  flat_map (fun c => match c with
                     | CallValidate validator => [validator]
                     | _ => []
                     end) calls.

Definition accepts (v : Validator) (value : any) : Prop :=
  Validate v value = None.

End Schema.
End schema.

(** ** Changesets

    A changeset is a mutable object behind a lock; calls are taken one
    at a time, and each method is a function from the state before the
    call to the state after it.  The bound schema is a [BaseSchema]. *)

Module changeset.
Import schema.
Section Changeset.

Context {rt : GoRuntime}.

(** The schema of a changeset is a [BaseSchema]: a changeset over the
    nil schema, on which the calls through the interface panic, is left
    out. *)
Record Changeset : Type := {
  data : smap.t any;
  changes : smap.t any;
  errors : smap.t (list string);
  schema : BaseSchema;
  valid : bool;
  previousValues : smap.t any
}.

Definition withData (cs : Changeset) (m : smap.t any) : Changeset := {|
  data := m;
  changes := changes cs;
  errors := errors cs;
  schema := schema cs;
  valid := valid cs;
  previousValues := previousValues cs
|}.

Definition withChanges (cs : Changeset) (m : smap.t any) : Changeset := {|
  data := data cs;
  changes := m;
  errors := errors cs;
  schema := schema cs;
  valid := valid cs;
  previousValues := previousValues cs
|}.

Definition withErrors (cs : Changeset) (m : smap.t (list string))
    : Changeset := {|
  data := data cs;
  changes := changes cs;
  errors := m;
  schema := schema cs;
  valid := valid cs;
  previousValues := previousValues cs
|}.

Definition withValid (cs : Changeset) (b : bool) : Changeset := {|
  data := data cs;
  changes := changes cs;
  errors := errors cs;
  schema := schema cs;
  valid := b;
  previousValues := previousValues cs
|}.

Definition withPreviousValues (cs : Changeset) (m : smap.t any)
    : Changeset := {|
  data := data cs;
  changes := changes cs;
  errors := errors cs;
  schema := schema cs;
  valid := valid cs;
  previousValues := m
|}.

Definition NewChangeset (s : BaseSchema) : Changeset := {|
  data := smap.empty;
  changes := smap.empty;
  errors := smap.empty;
  schema := s;
  valid := true;
  previousValues := smap.empty
|}.

(** Copies the bindings of [from] into [into], as a [range] loop with
    an assignment per binding does. *)
Definition copyInto (from into : smap.t any) : smap.t any :=
  fold_left (fun m kv => smap.insert (fst kv) (snd kv) m)
            (smap.entries from) into.

Definition FromMap (s : BaseSchema) (dataMap : smap.t any) : Changeset :=
  withData (NewChangeset s) (copyInto dataMap smap.empty).

Definition addError (cs : Changeset) (fieldName message : string)
    : Changeset :=
  let present :=
    match smap.lookup fieldName (errors cs) with
    | Some messages => messages
    | None => []
    end in
  withErrors cs (smap.insert fieldName (present ++ [message])%list (errors cs)).

(** Saves the value that [data] holds for the key, when it holds one. *)
Definition savePrevious (cs : Changeset) (key : string) : Changeset :=
  match smap.lookup key (data cs) with
  | Some oldValue =>
      withPreviousValues cs (smap.insert key oldValue (previousValues cs))
  | None => cs
  end.

(** The loop over the transformers of a field: an error is recorded and
    the loop goes on with the value it had. *)
Definition applyTransformers (key : string) (ts : list Transformer)
    (start : Changeset * any) : Changeset * any :=
  fold_left
    (fun (acc : Changeset * any) t =>
       let (cs, transformedValue) := acc in
       match Transform t transformedValue with
       | (_, Some err) =>
           (addError cs key ("转换器错误: " ++ Error err), transformedValue)
       | (transformed, None) => (cs, transformed)
       end)
    ts start.

(** The body of the loop of [Cast] for one binding; [None] is a
    panic. *)
Definition castBinding (cs : Changeset) (key : string) (value : any)
    : option Changeset :=
  match BaseSchema_GetField (schema cs) key with
  | None => Some cs
  | Some field =>
      let (cs1, transformedValue) :=
        applyTransformers key (Field_Transformers field)
                          (savePrevious cs key, value) in
      match ConvertValue transformedValue (Field_Type field) with
      | None => None
      | Some (_, Some err) =>
          Some (addError cs1 key ("类型转换失败: " ++ Error err))
      | Some (convertedValue, None) =>
          Some (withData
                  (withChanges cs1
                     (smap.insert key convertedValue (changes cs1)))
                  (smap.insert key convertedValue (data cs1)))
      end
  end.

Definition Changeset_Cast (cs : Changeset) (input : smap.t any)
    : option Changeset :=
  fold_left
    (fun acc kv =>
       match acc with
       | None => None
       | Some cs' => castBinding cs' (fst kv) (snd kv)
       end)
    (smap.entries input) (Some cs).

(** [value == nil || value == ""] *)
Definition blank (value : any) : bool :=
  match value with
  | ANil | AString "" => true
  | _ => false
  end.

(** The loop over the validators of a field. *)
Definition runValidators (name : string) (vs : list Validator) (value : any)
    (cs : Changeset) : Changeset :=
  fold_left
    (fun cs' v =>
       match Validate v value with
       | Some err => withValid (addError cs' name (Error err)) false
       | None => cs'
       end)
    vs cs.

(** The body of the loop of [Validate] for one field. *)
Definition validateField (cs : Changeset) (field : Field) : Changeset :=
  let name := Field_Name field in
  match smap.lookup name (data cs) with
  | None =>
      if negb (Field_Null field)
      then withValid (addError cs name "字段为必填项") false
      else cs
  | Some value =>
      if negb (Field_Null field) && blank value
      then withValid (addError cs name "字段为必填项") false
      else
        match value with
        | ANil => cs
        | _ => runValidators name (Field_Validators field) value cs
        end
  end.

Definition Changeset_Validate (cs : Changeset) : Changeset :=
  fold_left validateField (BaseSchema_Fields (schema cs))
            (withErrors cs smap.empty).

Definition Changeset_ValidateChange (cs : Changeset) (fieldName : string)
    (validator : Validator) : Changeset :=
  match smap.lookup fieldName (changes cs) with
  | None => cs
  | Some value =>
      match Validate validator value with
      | Some err => withValid (addError cs fieldName (Error err)) false
      | None => cs
      end
  end.

Definition Changeset_IsValid (cs : Changeset) : bool :=
  valid cs && smap.isEmpty (errors cs).

Definition Changeset_Errors (cs : Changeset) : smap.t (list string) :=
  errors cs.

(** A missing key yields the nil slice. *)
Definition Changeset_GetError (cs : Changeset) (fieldName : string)
    : list string :=
  match smap.lookup fieldName (errors cs) with
  | Some messages => messages
  | None => []
  end.

Definition Changeset_Data (cs : Changeset) : smap.t any :=
  copyInto (data cs) smap.empty.

Definition Changeset_Changes (cs : Changeset) : smap.t any :=
  copyInto (changes cs) smap.empty.

(** A missing key yields nil. *)
Definition Changeset_Get (cs : Changeset) (fieldName : string) : any :=
  match smap.lookup fieldName (data cs) with
  | Some v => v
  | None => ANil
  end.

Definition Changeset_GetChanged (cs : Changeset) (fieldName : string)
    : any * bool :=
  match smap.lookup fieldName (changes cs) with
  | Some v => (v, true)
  | None => (ANil, false)
  end.

Definition Changeset_GetPrevious (cs : Changeset) (fieldName : string)
    : any :=
  match smap.lookup fieldName (previousValues cs) with
  | Some v => v
  | None => ANil
  end.

Definition Changeset_HasChanged (cs : Changeset) (fieldName : string)
    : bool :=
  match smap.lookup fieldName (changes cs) with
  | Some _ => true
  | None => false
  end.

Definition Changeset_PutChange (cs : Changeset) (fieldName : string)
    (value : any) : Changeset :=
  match BaseSchema_GetField (schema cs) fieldName with
  | None => cs
  | Some _ =>
      let cs1 := savePrevious cs fieldName in
      withData
        (withChanges cs1 (smap.insert fieldName value (changes cs1)))
        (smap.insert fieldName value (data cs1))
  end.

Definition Changeset_ClearError (cs : Changeset) (fieldName : string)
    : Changeset :=
  let cs1 := withErrors cs (smap.delete fieldName (errors cs)) in
  if smap.isEmpty (errors cs1) then withValid cs1 true else cs1.

Definition Changeset_ForceChanges (cs : Changeset) : Changeset :=
  withChanges cs (copyInto (data cs) (changes cs)).

Definition Changeset_GetChangedFields (cs : Changeset) : list string :=
  map fst (smap.entries (changes cs)).

Definition Changeset_ToMap (cs : Changeset) : smap.t any :=
  Changeset_Changes cs.

Definition Changeset_ValidateRequired (cs : Changeset)
    (fieldNames : list string) : Changeset :=
  fold_left
    (fun cs' fieldName =>
       let missing :=
         match smap.lookup fieldName (data cs') with
         | None => true
         | Some value => blank value
         end in
       if missing
       then withValid (addError cs' fieldName (fieldName ++ " is required"))
                      false
       else cs')
    fieldNames cs.

Definition Changeset_ValidateLength (cs : Changeset) (fieldName : string)
    (min max : Z) : Changeset :=
  match smap.lookup fieldName (data cs) with
  | None | Some ANil => cs
  | Some (AString str) =>
      let length := Z.of_nat (String.length str) in
      let cs1 :=
        if ((0 <? min) && (length <? min))%Z
        then withValid
               (addError cs fieldName
                  (fieldName ++ " is too short (minimum is " ++ itoa min
                     ++ " characters)"))
               false
        else cs in
      if ((0 <? max) && (max <? length))%Z
      then withValid
             (addError cs1 fieldName
                (fieldName ++ " is too long (maximum is " ++ itoa max
                   ++ " characters)"))
             false
      else cs1
  | Some _ =>
      withValid (addError cs fieldName (fieldName ++ " must be a string"))
                false
  end.

Definition Changeset_GetChange (cs : Changeset) (fieldName : string) : any :=
  match smap.lookup fieldName (changes cs) with
  | Some v => v
  | None => ANil
  end.

(** *** Vocabulary of the statements *)

(** What a changeset holds for one key: in [data], in [changes], in
    [errors] and in [previousValues]. *)
Definition view : Type :=
  (option any * option any * option (list string) * option any)%type.

Definition viewOf (cs : Changeset) (k : string) : view :=
  (smap.lookup k (data cs), smap.lookup k (changes cs),
   smap.lookup k (errors cs), smap.lookup k (previousValues cs)).

(** The value that the transformers of a field pass on, and the messages
    of those that fail, in order. *)
Fixpoint transformedValue (ts : list Transformer) (value : any) : any :=
  match ts with
  | [] => value
  | t :: ts' =>
      match Transform t value with
      | (_, Some _) => transformedValue ts' value
      | (transformed, None) => transformedValue ts' transformed
      end
  end.

Fixpoint transformerMessages (ts : list Transformer) (value : any)
    : list string :=
  match ts with
  | [] => []
  | t :: ts' =>
      match Transform t value with
      | (_, Some err) =>
          ("转换器错误: " ++ Error err) :: transformerMessages ts' value
      | (transformed, None) => transformerMessages ts' transformed
      end
  end.

(** The messages of a key after more messages were added to it. *)
Definition withMessages (present : option (list string))
    (messages : list string) : option (list string) :=
  match messages with
  | [] => present
  | _ =>
      Some (match present with
            | Some l => l
            | None => []
            end ++ messages)%list
  end.

(** Two changesets that differ in the valid flag at most. *)
Definition sameButValid (cs1 cs2 : Changeset) : Prop :=
  withValid cs1 true = withValid cs2 true.

(** What [Cast] leaves for a key that its input binds to [value]. *)
Definition castAt (s : BaseSchema) (k : string) (value : any) (w : view)
    : view :=
  match BaseSchema_GetField s k with
  | None => w
  | Some field =>
      let '(d, c, e, p) := w in
      let p' := match d with
                | Some oldValue => Some oldValue
                | None => p
                end in
      let messages := transformerMessages (Field_Transformers field) value in
      match ConvertValue (transformedValue (Field_Transformers field) value)
                         (Field_Type field) with
      | Some (convertedValue, None) =>
          (Some convertedValue, Some convertedValue,
           withMessages e messages, p')
      | Some (_, Some err) =>
          (d, c,
           withMessages e
             (messages ++ [("类型转换失败: " ++ Error err)%string])%list,
           p')
      | None => w
      end
  end.

(** Whether [Validate] finds nothing to report for a field, given the
    data of the changeset. *)
Definition fieldPasses (d : smap.t any) (field : Field) : bool :=
  match smap.lookup (Field_Name field) d with
  | None => Field_Null field
  | Some value =>
      if negb (Field_Null field) && blank value then false
      else
        match value with
        | ANil => true
        | _ =>
            forallb (fun v => match Validate v value with
                              | Some _ => false
                              | None => true
                              end)
                    (Field_Validators field)
        end
  end.

(** The messages that [ValidateLength] records for a name, given what
    the data binds the name to. *)
Definition lengthMessages (fieldName : string) (min max : Z)
    (bound : option any) : list string :=
  match bound with
  | None | Some ANil => []
  | Some (AString str) =>
      let length := Z.of_nat (String.length str) in
      ((if ((0 <? min) && (length <? min))%Z
        then [(fieldName ++ " is too short (minimum is " ++ itoa min
                 ++ " characters)")%string]
        else [])
       ++ (if ((0 <? max) && (max <? length))%Z
           then [(fieldName ++ " is too long (maximum is " ++ itoa max
                    ++ " characters)")%string]
           else []))%list
  | Some _ => [(fieldName ++ " must be a string")%string]
  end.

(** Whether [ValidateRequired] reports a field. *)
Definition missing (d : smap.t any) (fieldName : string) : bool :=
  match smap.lookup fieldName d with
  | None => true
  | Some value => blank value
  end.

End Changeset.
End changeset.

(** ** Dynamic table configurations and their registry *)

Module dynamic_table.
Import schema.
Section DynamicTable.

Context {rt : GoRuntime}.

Record DynamicTableField : Type := {
  DynamicTableField_Name : string;
  DynamicTableField_Type : FieldType;
  DynamicTableField_Primary : bool;
  DynamicTableField_Autoinc : bool;
  DynamicTableField_Null : bool;
  DynamicTableField_Default : any;
  DynamicTableField_Index : bool;
  DynamicTableField_Unique : bool;
  DynamicTableField_Description : string
}.

Record DynamicTableConfig : Type := {
  TableName : string;
  Description : string;
  Fields : list DynamicTableField;
  ParentTable : string;
  TriggerCondition : string;
  Strategy : string;
  Options : smap.t any
}.

Definition NewDynamicTableConfig (tableName : string) : DynamicTableConfig := {|
  TableName := tableName;
  Description := "";
  Fields := [];
  ParentTable := "";
  TriggerCondition := "";
  Strategy := "auto";
  Options := smap.empty
|}.



Definition setStrategy (c : DynamicTableConfig) (strategy : string)
    : DynamicTableConfig := {|
  TableName := TableName c;
  Description := Description c;
  Fields := Fields c;
  ParentTable := ParentTable c;
  TriggerCondition := TriggerCondition c;
  Strategy := strategy;
  Options := Options c
|}.

Definition DynamicTableConfig_WithStrategy (c : DynamicTableConfig)
    (strategy : string) : DynamicTableConfig :=
  if (strategy =? "auto") || (strategy =? "manual")
  then setStrategy c strategy
  else c.





Definition NewDynamicTableField (name : string) (fieldType : FieldType)
    : DynamicTableField := {|
  DynamicTableField_Name := name;
  DynamicTableField_Type := fieldType;
  DynamicTableField_Primary := false;
  DynamicTableField_Autoinc := false;
  DynamicTableField_Null := true;
  DynamicTableField_Default := ANil;
  DynamicTableField_Index := false;
  DynamicTableField_Unique := false;
  DynamicTableField_Description := ""
|}.

Definition DynamicTableField_AsPrimaryKey (f : DynamicTableField)
    : DynamicTableField := {|
  DynamicTableField_Name := DynamicTableField_Name f;
  DynamicTableField_Type := DynamicTableField_Type f;
  DynamicTableField_Primary := true;
  DynamicTableField_Autoinc := DynamicTableField_Autoinc f;
  DynamicTableField_Null := false;
  DynamicTableField_Default := DynamicTableField_Default f;
  DynamicTableField_Index := DynamicTableField_Index f;
  DynamicTableField_Unique := DynamicTableField_Unique f;
  DynamicTableField_Description := DynamicTableField_Description f
|}.

Definition DynamicTableField_WithAutoinc (f : DynamicTableField)
    : DynamicTableField := {|
  DynamicTableField_Name := DynamicTableField_Name f;
  DynamicTableField_Type := DynamicTableField_Type f;
  DynamicTableField_Primary := DynamicTableField_Primary f;
  DynamicTableField_Autoinc := true;
  DynamicTableField_Null := DynamicTableField_Null f;
  DynamicTableField_Default := DynamicTableField_Default f;
  DynamicTableField_Index := DynamicTableField_Index f;
  DynamicTableField_Unique := DynamicTableField_Unique f;
  DynamicTableField_Description := DynamicTableField_Description f
|}.

Definition DynamicTableField_AsNotNull (f : DynamicTableField)
    : DynamicTableField := {|
  DynamicTableField_Name := DynamicTableField_Name f;
  DynamicTableField_Type := DynamicTableField_Type f;
  DynamicTableField_Primary := DynamicTableField_Primary f;
  DynamicTableField_Autoinc := DynamicTableField_Autoinc f;
  DynamicTableField_Null := false;
  DynamicTableField_Default := DynamicTableField_Default f;
  DynamicTableField_Index := DynamicTableField_Index f;
  DynamicTableField_Unique := DynamicTableField_Unique f;
  DynamicTableField_Description := DynamicTableField_Description f
|}.

Definition DynamicTableField_WithIndex (f : DynamicTableField)
    : DynamicTableField := {|
  DynamicTableField_Name := DynamicTableField_Name f;
  DynamicTableField_Type := DynamicTableField_Type f;
  DynamicTableField_Primary := DynamicTableField_Primary f;
  DynamicTableField_Autoinc := DynamicTableField_Autoinc f;
  DynamicTableField_Null := DynamicTableField_Null f;
  DynamicTableField_Default := DynamicTableField_Default f;
  DynamicTableField_Index := true;
  DynamicTableField_Unique := DynamicTableField_Unique f;
  DynamicTableField_Description := DynamicTableField_Description f
|}.

Definition DynamicTableField_WithUnique (f : DynamicTableField)
    : DynamicTableField := {|
  DynamicTableField_Name := DynamicTableField_Name f;
  DynamicTableField_Type := DynamicTableField_Type f;
  DynamicTableField_Primary := DynamicTableField_Primary f;
  DynamicTableField_Autoinc := DynamicTableField_Autoinc f;
  DynamicTableField_Null := DynamicTableField_Null f;
  DynamicTableField_Default := DynamicTableField_Default f;
  DynamicTableField_Index := DynamicTableField_Index f;
  DynamicTableField_Unique := true;
  DynamicTableField_Description := DynamicTableField_Description f
|}.

Definition DynamicTableField_WithDefault (f : DynamicTableField)
    (value : any) : DynamicTableField := {|
  DynamicTableField_Name := DynamicTableField_Name f;
  DynamicTableField_Type := DynamicTableField_Type f;
  DynamicTableField_Primary := DynamicTableField_Primary f;
  DynamicTableField_Autoinc := DynamicTableField_Autoinc f;
  DynamicTableField_Null := DynamicTableField_Null f;
  DynamicTableField_Default := value;
  DynamicTableField_Index := DynamicTableField_Index f;
  DynamicTableField_Unique := DynamicTableField_Unique f;
  DynamicTableField_Description := DynamicTableField_Description f
|}.

Definition DynamicTableField_WithDescription (f : DynamicTableField)
    (desc : string) : DynamicTableField := {|
  DynamicTableField_Name := DynamicTableField_Name f;
  DynamicTableField_Type := DynamicTableField_Type f;
  DynamicTableField_Primary := DynamicTableField_Primary f;
  DynamicTableField_Autoinc := DynamicTableField_Autoinc f;
  DynamicTableField_Null := DynamicTableField_Null f;
  DynamicTableField_Default := DynamicTableField_Default f;
  DynamicTableField_Index := DynamicTableField_Index f;
  DynamicTableField_Unique := DynamicTableField_Unique f;
  DynamicTableField_Description := desc
|}.

(** One call of a method of the field, and a chain of calls. *)
Inductive fieldCall : Type :=
| CallAsPrimaryKey
| CallWithAutoinc
| CallAsNotNull
| CallWithIndex
| CallWithUnique
| CallWithDefault (value : any)
| CallWithFieldDescription (desc : string).

Definition applyFieldCall (f : DynamicTableField) (call : fieldCall)
    : DynamicTableField :=
  match call with
  | CallAsPrimaryKey => DynamicTableField_AsPrimaryKey f
  | CallWithAutoinc => DynamicTableField_WithAutoinc f
  | CallAsNotNull => DynamicTableField_AsNotNull f
  | CallWithIndex => DynamicTableField_WithIndex f
  | CallWithUnique => DynamicTableField_WithUnique f
  | CallWithDefault value => DynamicTableField_WithDefault f value
  | CallWithFieldDescription desc => DynamicTableField_WithDescription f desc
  end.

(** *** The registry *)

Record DynamicTableRegistry : Type := {
  configs : smap.t DynamicTableConfig
}.

Definition NewDynamicTableRegistry : DynamicTableRegistry :=
  {| configs := smap.empty |}.

(** A strategy other than auto and manual is replaced by auto, in the
    configuration that the caller handed over, which is the one
    stored. *)
Definition normalized (config : DynamicTableConfig) : DynamicTableConfig :=
  if negb (Strategy config =? "auto") && negb (Strategy config =? "manual")
  then setStrategy config "auto"
  else config.

Definition DynamicTableRegistry_Register (r : DynamicTableRegistry)
    (name : string) (config : DynamicTableConfig)
    : DynamicTableRegistry * option string :=
  match smap.lookup name (configs r) with
  | Some _ =>
      (r, Some ("dynamic table config already registered: " ++ name))
  | None =>
      if TableName config =? "" then (r, Some "table name is required")
      else
        ({| configs := smap.insert name (normalized config) (configs r) |},
         None)
  end.

Definition DynamicTableRegistry_Unregister (r : DynamicTableRegistry)
    (name : string) : DynamicTableRegistry * option string :=
  match smap.lookup name (configs r) with
  | None => (r, Some ("dynamic table config not found: " ++ name))
  | Some _ => ({| configs := smap.delete name (configs r) |}, None)
  end.

Definition DynamicTableRegistry_Get (r : DynamicTableRegistry)
    (name : string) : option DynamicTableConfig * option string :=
  match smap.lookup name (configs r) with
  | None => (None, Some ("dynamic table config not found: " ++ name))
  | Some config => (Some config, None)
  end.

Definition DynamicTableRegistry_List (r : DynamicTableRegistry)
    : list DynamicTableConfig :=
  map snd (smap.entries (configs r)).

(** One call that changes the registry, and a run of such calls. *)
Inductive registryCall : Type :=
| CallRegister (name : string) (config : DynamicTableConfig)
| CallUnregister (name : string).

Definition applyRegistryCall (r : DynamicTableRegistry) (call : registryCall)
    : DynamicTableRegistry :=
  match call with
  | CallRegister name config => fst (DynamicTableRegistry_Register r name config)
  | CallUnregister name => fst (DynamicTableRegistry_Unregister r name)
  end.

(** *** Vocabulary of the statements *)


Definition builtField (name : string) (fieldType : FieldType)
    (calls : list fieldCall) : DynamicTableField :=
  fold_left applyFieldCall calls (NewDynamicTableField name fieldType).

Definition registryAfter (calls : list registryCall) : DynamicTableRegistry :=
  fold_left applyRegistryCall calls NewDynamicTableRegistry.


Definition validStrategy (c : DynamicTableConfig) : Prop :=
  Strategy c = "auto" \/ Strategy c = "manual".

End DynamicTable.
End dynamic_table.

(** ** Migrations and repositories *)

Module migration.
Import schema.
Section Migration.

Context {rt : GoRuntime}.

Record Migration : Type := {
  Version : string;
  Description : string;
  UpSQL : list string;
  DownSQL : list string
}.

(** The migrator also holds the repository it runs on, which [Register]
    does not read. *)
Record Migrator : Type := { migrations : smap.t Migration }.

Definition NewMigrator : Migrator := {| migrations := smap.empty |}.

Definition Migrator_Register (m : Migrator) (migration : Migration)
    : Migrator * option string :=
  if Version migration =? "" then
    (m, Some "migration version cannot be empty")
  else if Description migration =? "" then
    (m, Some "migration description cannot be empty")
  else
    match UpSQL migration with
    | [] => (m, Some "migration UpSQL cannot be empty")
    | _ =>
        ({| migrations :=
              smap.insert (Version migration) migration (migrations m) |},
         None)
    end.

End Migration.
End migration.

Module repository.
Import schema.
Section Repository.

Context {rt : GoRuntime}.

(** The adapters are those of the drivers; the repository only holds
    one. *)
Variable Adapter : Type.

(** The configuration; [NewRepository] reads the adapter type and hands
    the whole of it to the factory. *)
Record PoolConfig : Type := {
  MaxConnections : Z;
  MinConnections : Z;
  ConnectTimeout : Z;
  IdleTimeout : Z;
  MaxLifetime : Z
}.

Record Config : Type := {
  Config_Adapter : string;
  Config_Database : string;
  Config_Host : string;
  Config_Port : Z;
  Config_Username : string;
  Config_Password : string;
  Config_SSLMode : string;
  Config_Pool : option PoolConfig;
  Config_Options : smap.t any
}.

(** [Create] returns the adapter, nil or not, and the error. *)
Record AdapterFactory : Type := {
  AdapterFactory_Name : string;
  AdapterFactory_Create : Config -> option Adapter * option goerror
}.

Record Repository : Type := { adapter : option Adapter }.

(** The global table of factories is the state that [RegisterAdapter]
    changes and [NewRepository] reads. *)
Definition RegisterAdapter (adapterFactories : smap.t AdapterFactory)
    (factory : AdapterFactory) : smap.t AdapterFactory :=
  smap.insert (AdapterFactory_Name factory) factory adapterFactories.

(** The configuration is a pointer: [None] is nil. *)
Definition NewRepository (adapterFactories : smap.t AdapterFactory)
    (config : option Config) : option Repository * option string :=
  match config with
  | None => (None, Some "config cannot be nil")
  | Some cfg =>
      if Config_Adapter cfg =? "" then
        (None, Some "adapter type must be specified")
      else
        match smap.lookup (Config_Adapter cfg) adapterFactories with
        | None => (None, Some ("unsupported adapter: " ++ Config_Adapter cfg))
        | Some factory =>
            match AdapterFactory_Create factory cfg with
            | (_, Some err) =>
                (None, Some ("failed to create adapter: " ++ Error err))
            | (created, None) => (Some {| adapter := created |}, None)
            end
        end
  end.

End Repository.
End repository.

Import db sql.

(** * The condition model *)

(** A translator to run the interface on: it renders a simple condition
    as its field name, counts the conditions it has rendered in its
    state, and supports nothing else. *)
Definition fieldTranslator : ConditionTranslator nat := {|
  TranslateCondition := fun c =>
    match c with
    | SimpleCondition field _ v =>
        (n <- get ;; _ <- put (S n) ;; ret (field, [v], None))%go
    | _ => ret ("?", [VNil], Some "unsupported condition")
    end;
  TranslateComposite := fun op _ =>
    ret ("?", [VNil], Some ("unsupported operator: " ++ op))
|}.

(** The condition each factory returns for given inputs, in the order
    Eq, Ne, Gt, Lt, Gte, Lte, In, Between, Like, And, Or, Not. *)
Definition factoryResults (field pattern : string) (v lo hi : value)
    (values : list value) (cs : list Condition) (c : Condition)
    : list Condition :=
  [Eq field v; Ne field v; Gt field v; Lt field v; Gte field v; Lte field v;
   In field values; Between field lo hi; Like field pattern;
   And cs; Or cs; Not c].

(** [In field values] carries a non-empty list equal to [values]. *)
Definition In_carries_nonempty (field : string) (values : list value) : Prop :=
  exists l, In field values = SimpleCondition field "in" (VSlice l)
            /\ l = values /\ l <> [].

(** [mk cs] is a composite under [op] with the children [cs], at least
    one of them. *)
Definition composite_of_children (mk : list Condition -> Condition)
    (op : string) (cs : list Condition) : Prop :=
  exists l, mk cs = CompositeCondition op l /\ l = cs /\ 1 <= List.length l.

(** [n] negations around a condition, and [n] wrappings of a
    fragment. *)
Definition negate (n : nat) (c : Condition) : Condition := Nat.iter n Not c.

Fixpoint wrapNot (n : nat) (s : string) : string :=
  match n with
  | 0 => s
  | S n' => "NOT (" ++ wrapNot n' s ++ ")"
  end.

Section Translation.

Context {St : Type}.
Variable translator : ConditionTranslator St.

(** C1: when translating [c] succeeds with fragment [s] and arguments
    [a], translating [Not c] from the same translator state succeeds
    with the fragment [NOT (s)] and the same arguments [a], and leaves
    the translator in the same state. *)
Theorem Not_translate_wraps (c : Condition) (st st' : St)
    (s : string) (a : list value) :
  Translate c translator st = Return (s, a, None) st' ->
  Translate (Not c) translator st = Return ("NOT (" ++ s ++ ")", a, None) st'.
Proof.
  intros Hinner.
  unfold Not; cbn [Translate]; unfold bind.
  now rewrite Hinner.
Qed.

(** C2: [Translate] of a simple condition is the translator's
    [TranslateCondition] on the condition itself, and [Translate] of a
    composite condition is the translator's [TranslateComposite] on its
    operator and its children, both passed on as they are. *)
Theorem Translate_delegates :
  (forall field op v,
      Translate (SimpleCondition field op v) translator
      = TranslateCondition translator (SimpleCondition field op v))
  /\ (forall op cs,
      Translate (CompositeCondition op cs) translator
      = TranslateComposite translator op cs).
Proof. split; reflexivity. Qed.

(** C7: when translating the inner condition [c] returns an error,
    translating [Not c] returns that error with the empty fragment and
    no arguments, whatever fragment and arguments came with the inner
    error. *)
Theorem Not_translate_error (c : Condition) (st st' : St)
    (s : string) (a : list value) (e : error) :
  Translate c translator st = Return (s, a, Some e) st' ->
  Translate (Not c) translator st = Return ("", [], Some e) st'.
Proof.
  intros Hinner.
  unfold Not; cbn [Translate]; unfold bind.
  now rewrite Hinner.
Qed.

End Translation.

Lemma Not_translate_wraps_witness :
  Translate (Eq "age" (VInt 18)) fieldTranslator 0
    = Return ("age", [VInt 18], None) 1
  /\ Translate (Not (Eq "age" (VInt 18))) fieldTranslator 0
    = Return ("NOT (age)", [VInt 18], None) 1.
Proof.
  split; [reflexivity|].
  apply (Not_translate_wraps fieldTranslator (Eq "age" (VInt 18)) 0 1
           "age" [VInt 18]).
  reflexivity.
Defined.

Lemma Not_translate_error_witness :
  Translate (And [Eq "age" (VInt 18)]) fieldTranslator 0
    = Return ("?", [VNil], Some "unsupported operator: and") 0
  /\ Translate (Not (And [Eq "age" (VInt 18)])) fieldTranslator 0
    = Return ("", [], Some "unsupported operator: and") 0.
Proof.
  split; [reflexivity|].
  apply (Not_translate_error fieldTranslator (And [Eq "age" (VInt 18)]) 0 0
           "?" [VNil] "unsupported operator: and").
  reflexivity.
Defined.

(** * The factory functions *)

(** C3: every factory returns a condition for every input: the result is
    never the nil condition and it stores the inputs as they were given,
    whatever their shape (a [Between] over lists, an [In], [And] or [Or]
    without elements, a [Not] of the nil condition). *)
Theorem factories_total (field pattern : string) (v lo hi : value)
    (values : list value) (cs : list Condition) (c : Condition) :
  Forall (fun r => r <> NilCondition)
         (factoryResults field pattern v lo hi values cs c)
  /\ factoryResults field pattern v lo hi values cs c
     = [SimpleCondition field "eq" v; SimpleCondition field "ne" v;
        SimpleCondition field "gt" v; SimpleCondition field "lt" v;
        SimpleCondition field "gte" v; SimpleCondition field "lte" v;
        SimpleCondition field "in" (VSlice values);
        SimpleCondition field "between" (VSlice [lo; hi]);
        SimpleCondition field "like" (VString pattern);
        CompositeCondition "and" cs; CompositeCondition "or" cs;
        NotCondition c].
Proof.
  split; [|reflexivity].
  unfold factoryResults.
  repeat (apply Forall_cons; [discriminate|]).
  apply Forall_nil.
Qed.

(** C4: [Between field lo hi] is the simple condition on [field] with
    operator between whose value is the two-element list of [lo] then
    [hi], for any two values. *)
Theorem Between_pair (field : string) (lo hi : value) :
  Between field lo hi = SimpleCondition field "between" (VSlice [lo; hi]).
Proof. reflexivity. Qed.

(** C5 as stated fails: [In] called with a field and no values builds
    the in-condition whose list of values is empty. *)
Lemma In_without_values :
  In "age" [] = SimpleCondition "age" "in" (VSlice [])
  /\ ~ In_carries_nonempty "age" [].
Proof.
  split; [reflexivity|].
  intros (l & Hbuilt & _ & Hne).
  injection Hbuilt as Hl.
  now apply Hne.
Qed.

(** C5, amended: [In] called with at least one value carries a non-empty
    list equal to the values supplied, in the order supplied; called
    with no value it is not refused: it builds the in-condition that
    carries the empty list. *)
Theorem In_carries_values (field : string) (values : list value) :
  In field [] = SimpleCondition field "in" (VSlice [])
  /\ (values <> [] -> In_carries_nonempty field values).
Proof.
  split; [reflexivity|].
  intros Hne.
  exists values.
  repeat split; assumption.
Qed.

Lemma In_carries_values_witness :
  In "age" [] = SimpleCondition "age" "in" (VSlice [])
  /\ In_carries_nonempty "age" [VInt 18; VInt 21; VInt 25; VInt 30].
Proof.
  destruct (In_carries_values "age" [VInt 18; VInt 21; VInt 25; VInt 30])
    as [Hempty Hvalues].
  split; [exact Hempty|].
  apply Hvalues. discriminate.
Defined.

(** C6 as stated fails: [And] called without arguments builds the
    composite that has no child. *)
Lemma And_without_conditions :
  And [] = CompositeCondition "and" []
  /\ ~ composite_of_children And "and" [].
Proof.
  split; [reflexivity|].
  intros (l & Hbuilt & _ & Hlen).
  injection Hbuilt as Hl.
  subst l.
  cbn in Hlen.
  lia.
Qed.

(** C6, amended: [And] and [Or] called with at least one condition build
    a composite whose children are the arguments in the order supplied,
    at least one of them; called without arguments they are not refused:
    they build the composite that has no child. *)
Theorem And_Or_children (cs : list Condition) :
  And [] = CompositeCondition "and" []
  /\ Or [] = CompositeCondition "or" []
  /\ (cs <> [] ->
      composite_of_children And "and" cs
      /\ composite_of_children Or "or" cs).
Proof.
  split; [reflexivity|].
  split; [reflexivity|].
  intros Hne.
  assert (1 <= List.length cs) as Hlen.
  { destruct cs as [|c cs']; [contradiction|cbn; lia]. }
  split; exists cs; repeat split; assumption.
Qed.

Lemma And_Or_children_witness :
  composite_of_children And "and" [Eq "status" (VString "active"); NilCondition]
  /\ composite_of_children Or "or" [Eq "status" (VString "active"); NilCondition].
Proof.
  apply (And_Or_children [Eq "status" (VString "active"); NilCondition]).
  discriminate.
Defined.

(** C8: the type tag of a condition depends on the factory that built it
    only: simple for the nine comparisons, composite for [And] and [Or],
    not for [Not]; [Type_] takes no translator. *)
Theorem Type_of_factories (field pattern : string) (v lo hi : value)
    (values : list value) (cs : list Condition) (c : Condition) :
  map Type_ (factoryResults field pattern v lo hi values cs c)
  = [Some "simple"; Some "simple"; Some "simple"; Some "simple";
     Some "simple"; Some "simple"; Some "simple"; Some "simple";
     Some "simple"; Some "composite"; Some "composite"; Some "not"].
Proof. reflexivity. Qed.

(** * Capabilities *)

(** C10: the default capability set has the twelve operator flags and the
    six clause flags set, no native query support and an empty native
    query language. *)
Theorem DefaultQueryBuilderCapabilities_flags :
  let caps := DefaultQueryBuilderCapabilities in
  map (fun flag => flag caps)
      [SupportsEq; SupportsNe; SupportsGt; SupportsLt; SupportsGte;
       SupportsLte; SupportsIn; SupportsBetween; SupportsLike; SupportsAnd;
       SupportsOr; SupportsNot]
  = repeat true 12
  /\ map (fun flag => flag caps)
      [SupportsSelect; SupportsOrderBy; SupportsLimit; SupportsOffset;
       SupportsJoin; SupportsSubquery]
  = repeat true 6
  /\ SupportsNativeQuery caps = false
  /\ NativeQueryLang caps = "".
Proof. repeat split. Qed.

(** * Placeholder numbering of the SQL translator *)

Lemma placeholders_app (f g : fragment) :
  placeholders (f ++ g)%list = (placeholders f ++ placeholders g)%list.
Proof.
  induction f as [|[s|s] f IH]; cbn; [reflexivity|assumption|].
  now rewrite IH.
Qed.

Lemma placeholders_join (sep : string) (fs : list fragment) :
  placeholders (joinFragments sep fs) = placeholdersOfAll fs.
Proof.
  unfold placeholdersOfAll.
  induction fs as [|f fs IH]; [reflexivity|].
  destruct fs as [|g fs'].
  - cbn. now rewrite app_nil_r.
  - change (joinFragments sep (f :: g :: fs'))
      with (f ++ Text sep :: joinFragments sep (g :: fs'))%list.
    rewrite placeholders_app.
    cbn [placeholders map List.concat] in *.
    now rewrite IH.
Qed.

Lemma text_app (f g : fragment) : text (f ++ g)%list = text f ++ text g.
Proof.
  induction f as [|t f IH]; cbn; [reflexivity|].
  rewrite IH.
  induction (tokenText t) as [|ch s IHs]; cbn; [reflexivity|].
  now rewrite IHs.
Qed.

Section Numbering.

Variable d : SQLDialect.

Lemma placeholdersFor_numbered (vs : list value) (n : nat) :
  exists ps,
    placeholdersFor d vs n = Return ps (n + List.length vs)
    /\ placeholdersOfAll ps = map (GetPlaceholder d) (seq n (List.length vs)).
Proof.
  revert n.
  induction vs as [|v vs IH]; intros n.
  - exists []. cbn. unfold ret. split; [f_equal; lia|reflexivity].
  - destruct (IH (S n)) as (ps & Hrun & Hmarks).
    exists ([Placeholder (GetPlaceholder d n)] :: ps).
    cbn. unfold bind, nextPlaceholder, bind, get, put, ret.
    rewrite Hrun. split.
    + now rewrite Nat.add_succ_r.
    + unfold placeholdersOfAll in *. cbn. now rewrite Hmarks.
Qed.

Lemma translateSimple_numbered (field op : string) (v : value) (n : nat) :
  wellNumbered placeholders d n (translateSimple d field op v n).
Proof.
  unfold translateSimple.
  destruct (comparisonSymbol op) as [sym|].
  { cbn. split; [lia|reflexivity]. }
  destruct (op =? "in").
  { destruct v as [| | | |vs]; try (cbn; tauto).
    destruct vs as [|v0 vs]; [cbn; split; [lia|reflexivity]|].
    destruct (placeholdersFor_numbered (v0 :: vs) n) as (ps & Hrun & Hmarks).
    unfold bind. rewrite Hrun. cbn [wellNumbered ret].
    split; [reflexivity|].
    cbn [placeholders]. rewrite placeholders_app, placeholders_join.
    cbn [placeholders]. now rewrite app_nil_r. }
  destruct (op =? "between"); [|cbn; tauto].
  destruct v as [| | | |vs]; try (cbn; tauto).
  destruct vs as [|lo [|hi [|v2 vs]]]; try (cbn; tauto).
  cbn. split; [lia|reflexivity].
Qed.

Lemma translateEach_numbered (tr : Condition -> M nat rendering)
    (cs : list Condition) :
  Forall (fun c => forall n, wellNumbered placeholders d n (tr c n)) cs ->
  forall n, wellNumbered placeholdersOfAll d n (translateEach tr cs n).
Proof.
  induction 1 as [|c cs Hc _ IH]; intros n.
  - cbn. split; [lia|reflexivity].
  - cbn [translateEach]. unfold bind.
    specialize (Hc n).
    destruct (tr c n) as [|[[f a] [e|]] n1]; cbn in Hc |- *; [exact I|tauto|].
    destruct Hc as [Hn1 Hf].
    specialize (IH n1).
    fold (translateEach tr).
    destruct (translateEach tr cs n1) as [|[[fs a'] [e|]] n2];
      cbn in IH |- *; [exact I|tauto|].
    destruct IH as [Hn2 Hfs].
    rewrite length_app, seq_app, map_app.
    split; [lia|].
    unfold placeholdersOfAll in *. cbn [map List.concat].
    rewrite Hf, Hfs. now subst n1.
Qed.

Lemma translateComposite_numbered (tr : Condition -> M nat rendering)
    (op : string) (cs : list Condition) :
  Forall (fun c => forall n, wellNumbered placeholders d n (tr c n)) cs ->
  forall n, wellNumbered placeholders d n (translateComposite tr op cs n).
Proof.
  intros Hcs n.
  unfold translateComposite.
  destruct (joinKeyword op) as [kw|]; [|cbn; tauto].
  destruct cs as [|c cs]; [cbn; tauto|].
  unfold bind.
  pose proof (translateEach_numbered tr (c :: cs) Hcs n) as Heach.
  destruct (translateEach tr (c :: cs) n) as [|[[fs a] [e|]] n1];
    cbn in Heach |- *; [exact I|tauto|].
  destruct Heach as [Hn1 Hfs].
  split; [assumption|].
  now rewrite placeholders_app, placeholders_join, app_nil_r.
Qed.

Lemma translateTree_numbered (c : Condition) :
  forall n, wellNumbered placeholders d n (translateTree d c n).
Proof.
  induction c as [field op v|op cs IH|inner IH|] using Condition_tree_ind;
    intros n.
  - apply translateSimple_numbered.
  - apply translateComposite_numbered, IH.
  - cbn [translateTree]. unfold bind.
    specialize (IH n).
    destruct (translateTree d inner n) as [|[[f a] [e|]] n1];
      cbn in IH |- *; [exact I|tauto|].
    destruct IH as [Hn1 Hf].
    split; [assumption|].
    now rewrite placeholders_app, app_nil_r.
  - exact I.
Qed.

End Numbering.

Lemma buildStatement_numbered (qc : SQLQueryConstructor) :
  wellNumbered placeholders (dialect qc) 1 (buildStatement qc 1).
Proof.
  unfold buildStatement.
  destruct (negative (limitVal qc) || negative (offsetVal qc));
    [cbn; tauto|].
  unfold bind.
  pose proof (translateEach_numbered (dialect qc)
                (translateTree (dialect qc)) (conditions qc)) as Heach.
  specialize (Heach
    (proj2 (Forall_forall _ _)
       (fun c _ => translateTree_numbered (dialect qc) c)) 1).
  destruct (translateEach (translateTree (dialect qc)) (conditions qc) 1)
    as [|[[fs a] [e|]] n1]; cbn in Heach |- *; [exact I|tauto|].
  destruct Heach as [Hn1 Hfs].
  split; [assumption|].
  rewrite !placeholders_app.
  assert (placeholders (whereClause fs) = placeholdersOfAll fs) as ->.
  { destruct fs as [|f fs]; [reflexivity|].
    unfold whereClause. cbn [placeholders]. apply placeholders_join. }
  assert (placeholders (orderByClause (dialect qc) (orderBys qc)) = []) as ->.
  { destruct (orderBys qc); reflexivity. }
  assert (placeholders
            (limitOffsetTokens (dialect qc) (limitVal qc) (offsetVal qc)) = [])
    as ->.
  { destruct (limitVal qc), (offsetVal qc); reflexivity. }
  now rewrite !app_nil_r.
Qed.

Lemma map_constant_seq {A : Type} (a : A) (k n : nat) :
  map (fun _ => a) (seq n k) = repeat a k.
Proof.
  revert n.
  induction k as [|k IH]; intros n; cbn; [reflexivity|].
  now rewrite IH.
Qed.

Lemma NewPostgreSQLDialect_numbered : numbered NewPostgreSQLDialect.
Proof. intros index. reflexivity. Qed.

Lemma NewMySQLDialect_positional : positional NewMySQLDialect.
Proof. intros index. reflexivity. Qed.

Lemma NewSQLiteDialect_positional : positional NewSQLiteDialect.
Proof. intros index. reflexivity. Qed.

(** The model against the documented output of the query constructor
    and against its tests. *)

Example Build_documented_usage :
  Build (Offset (Limit (OrderBy
           (Where (Where (NewSQLQueryConstructor "users" NewMySQLDialect)
                         (Eq "status" (VString "active")))
                  (Gt "age" (VInt 18)))
           "created_at" "DESC") 10) 5)
  = Some ("SELECT * FROM `users` WHERE `status` = ? AND `age` > ? "
            ++ "ORDER BY `created_at` DESC LIMIT 10 OFFSET 5",
          [VString "active"; VInt 18], None).
Proof. reflexivity. Qed.

Example Build_documented_select :
  Build (Select (NewSQLQueryConstructor "users" NewMySQLDialect)
                ["id"; "name"; "email"])
  = Some ("SELECT `id`, `name`, `email` FROM `users`", [], None).
Proof. reflexivity. Qed.

Example Build_documented_postgres :
  let name := quoteWith doubleQuote in
  Build (Where (Select (NewSQLQueryConstructor "users" NewPostgreSQLDialect)
                       ["id"; "name"])
               (Gt "age" (VInt 18)))
  = Some ("SELECT " ++ name "id" ++ ", " ++ name "name" ++ " FROM "
            ++ name "users" ++ " WHERE " ++ name "age" ++ " > $1",
          [VInt 18], None).
Proof. reflexivity. Qed.

Example Build_test_in_condition :
  Build (Where (NewSQLQueryConstructor "users" NewMySQLDialect)
               (In "age" [VInt 18; VInt 21; VInt 25; VInt 30]))
  = Some ("SELECT * FROM `users` WHERE `age` IN (?, ?, ?, ?)",
          [VInt 18; VInt 21; VInt 25; VInt 30], None).
Proof. reflexivity. Qed.

Example Build_test_where_all :
  Build (WhereAll (NewSQLQueryConstructor "users" NewMySQLDialect)
                  [Eq "name" (VString "John"); Gt "age" (VInt 18)])
  = Some ("SELECT * FROM `users` WHERE (`name` = ? AND `age` > ?)",
          [VString "John"; VInt 18], None).
Proof. reflexivity. Qed.

Example Translate_test_condition_translation :
  Translate (Eq "name" (VString "John")) (DefaultSQLTranslator NewMySQLDialect) 1
  = Return ("`name` = ?", [VString "John"], None) 2.
Proof. reflexivity. Qed.

(** The source's [Translate], run on the SQL translator, is the
    translation of the condition tree flattened to text. *)
Lemma Translate_DefaultSQLTranslator (d : SQLDialect) (c : Condition) :
  forall n,
    Translate c (DefaultSQLTranslator d) n = textual (translateTree d c) n.
Proof.
  induction c as [field op v|op cs _|inner IH|] using Condition_tree_ind;
    intros n; try reflexivity.
  cbn [Translate translateTree]. unfold bind at 1. rewrite IH.
  unfold textual, bind.
  pose proof (translateTree_numbered d inner n) as Hinner.
  destruct (translateTree d inner n) as [|[[f a] [e|]] n1];
    cbn in Hinner |- *; [reflexivity| |].
  - destruct Hinner as [-> ->]. reflexivity.
  - unfold ret. rewrite text_app. reflexivity.
Qed.

(** C9: when [Build] succeeds with k arguments, its SQL text is the text
    of a token sequence whose parameter markers are, in order of
    appearance, those of the indexes 1 to k.  Under a numbered dialect
    they are [$1], [$2], ... up to k, so the marker at position i of the
    statement (counted from 0) carries the number i+1 of the argument at
    that position; under a positional dialect they are k question marks.
    The conditions may nest to any depth. *)
Theorem Build_placeholders (qc : SQLQueryConstructor) (sqlText : string)
    (args : list value) :
  Build qc = Some (sqlText, args, None) ->
  exists tokens,
    BuildTokens qc = Some (tokens, args, None)
    /\ sqlText = text tokens
    /\ (numbered (dialect qc) ->
        placeholders tokens
        = map (fun i => "$" ++ decimal i) (seq 1 (List.length args))
        /\ forall i, i < List.length args ->
             nth_error (placeholders tokens) i = Some ("$" ++ decimal (S i)))
    /\ (positional (dialect qc) ->
        placeholders tokens = repeat "?" (List.length args)).
Proof.
  unfold Build, BuildTokens, runFresh, textual, bind.
  pose proof (buildStatement_numbered qc) as Hbuild.
  destruct (buildStatement qc 1) as [|[[tokens a] e] n1]; [discriminate|].
  cbn [ret]. intros Hresult.
  injection Hresult as <- <- ->.
  destruct Hbuild as [_ Hmarks].
  exists tokens.
  split; [reflexivity|].
  split; [reflexivity|].
  split.
  - intros Hnumbered. split.
    + rewrite Hmarks. apply map_ext, Hnumbered.
    + intros i Hi.
      rewrite Hmarks, nth_error_map, nth_error_seq.
      apply Nat.ltb_lt in Hi. rewrite Hi. cbn. now rewrite Hnumbered.
  - intros Hpositional. rewrite Hmarks.
    rewrite (map_ext _ (fun _ => "?") Hpositional).
    apply map_constant_seq.
Qed.

Lemma Build_placeholders_witness :
  let qc :=
    Where (WhereAll (NewSQLQueryConstructor "users" NewPostgreSQLDialect)
             [Eq "status" (VString "active");
              Not (In "age" [VInt 18; VInt 21])])
          (Between "score" (VInt 1) (VInt 9)) in
  let name := QuoteIdentifier NewPostgreSQLDialect in
  let sqlText :=
    "SELECT * FROM " ++ name "users" ++ " WHERE (" ++ name "status"
      ++ " = $1 AND NOT (" ++ name "age" ++ " IN ($2, $3))) AND "
      ++ name "score" ++ " BETWEEN $4 AND $5" in
  let args := [VString "active"; VInt 18; VInt 21; VInt 1; VInt 9] in
  Build qc = Some (sqlText, args, None)
  /\ exists tokens,
       BuildTokens qc = Some (tokens, args, None)
       /\ sqlText = text tokens
       /\ placeholders tokens = ["$1"; "$2"; "$3"; "$4"; "$5"].
Proof.
  intros qc name sqlText args.
  assert (Build qc = Some (sqlText, args, None)) as Hbuilt by reflexivity.
  split; [exact Hbuilt|].
  destruct (Build_placeholders qc sqlText args Hbuilt)
    as (tokens & Htokens & Htext & Hnumbered & _).
  exists tokens.
  repeat split; [exact Htokens|exact Htext|].
  apply (proj1 (Hnumbered NewPostgreSQLDialect_numbered)).
Defined.


(** * Maps *)

Section MapFacts.

Context {V : Type}.
Implicit Types (m : smap.t V) (k : string) (v : V).

Lemma lookup_delete k k' m :
  smap.lookup k (smap.delete k' m)
  = if k =? k' then None else smap.lookup k m.
Proof.
  induction m as [|[k0 v0] m IH]; cbn.
  - now destruct (k =? k').
  - destruct (k' =? k0) eqn:Hk'.
    + apply String.eqb_eq in Hk'. subst k0.
      rewrite IH. now destruct (k =? k').
    + cbn. destruct (k =? k0) eqn:Hk; [|exact IH].
      apply String.eqb_eq in Hk. subst k0.
      now rewrite String.eqb_sym, Hk'.
Qed.

Lemma lookup_insert k k' v m :
  smap.lookup k (smap.insert k' v m)
  = if k =? k' then Some v else smap.lookup k m.
Proof.
  unfold smap.insert. cbn.
  destruct (k =? k') eqn:Hk; [reflexivity|].
  now rewrite lookup_delete, Hk.
Qed.

Lemma isEmpty_lookup m :
  smap.isEmpty m = true <-> forall k, smap.lookup k m = None.
Proof.
  destruct m as [|[k0 v0] m]; cbn.
  - now split.
  - split; [discriminate|].
    intros Hnone. specialize (Hnone k0).
    now rewrite String.eqb_refl in Hnone.
Qed.

Lemma existsb_eqb_In k (seen : list string) :
  existsb (String.eqb k) seen = true <-> List.In k seen.
Proof.
  rewrite existsb_exists. split.
  - intros (x & Hin & Heq). apply String.eqb_eq in Heq. now subst x.
  - intros Hin. exists k. split; [assumption|apply String.eqb_refl].
Qed.

Lemma entriesFrom_In k v (seen : list string) m :
  List.In (k, v) (smap.entriesFrom seen m)
  <-> ~ List.In k seen /\ smap.lookup k m = Some v.
Proof.
  revert seen.
  induction m as [|[k0 v0] m IH]; intros seen; cbn.
  - split; [contradiction|]. now intros [_ H].
  - destruct (existsb (String.eqb k0) seen) eqn:Hseen.
    + apply existsb_eqb_In in Hseen.
      rewrite IH.
      destruct (k =? k0) eqn:Hk; [|reflexivity].
      apply String.eqb_eq in Hk. subst k0. tauto.
    + assert (~ List.In k0 seen) as Hout.
      { rewrite <- existsb_eqb_In. now rewrite Hseen. }
      cbn. rewrite IH. cbn.
      destruct (k =? k0) eqn:Hk.
      * apply String.eqb_eq in Hk. subst k0.
        split.
        -- intros [Heq|[Hno _]]; [|tauto].
           injection Heq as ->. tauto.
        -- intros [_ Hv]. injection Hv as ->. now left.
      * apply String.eqb_neq in Hk.
        split.
        -- intros [Heq|[Hno Hv]]; [congruence|]. tauto.
        -- intros [Hno Hv]. right. split; [|assumption].
           intros [Heq|Hin]; [congruence|tauto].
Qed.

Lemma entries_In k v m :
  List.In (k, v) (smap.entries m) <-> smap.lookup k m = Some v.
Proof.
  unfold smap.entries. rewrite entriesFrom_In. cbn. tauto.
Qed.

Lemma entriesFrom_NoDup (seen : list string) m :
  NoDup (map fst (smap.entriesFrom seen m)).
Proof.
  revert seen.
  induction m as [|[k0 v0] m IH]; intros seen; cbn; [constructor|].
  destruct (existsb (String.eqb k0) seen); [apply IH|].
  cbn. constructor; [|apply IH].
  rewrite in_map_iff. intros ([k v] & Hk & Hin). cbn in Hk. subst k.
  apply entriesFrom_In in Hin. cbn in Hin. tauto.
Qed.

Lemma entries_NoDup m : NoDup (map fst (smap.entries m)).
Proof. apply entriesFrom_NoDup. Qed.

End MapFacts.

(** * Negations of any depth *)

(** X1: translating a condition under [n] negations consults the
    translator once, for the innermost condition: a success comes back
    wrapped [n] times with its arguments, an error comes back with the
    empty fragment and no arguments as soon as there is one negation,
    and a panic stays a panic; the translator state is the one the
    innermost translation left. *)
Theorem Translate_negate {St : Type} (t : ConditionTranslator St)
    (n : nat) (c : Condition) (st : St) :
  Translate (negate n c) t st
  = match Translate c t st with
    | Panic => Panic
    | Return (s, a, None) st' => Return (wrapNot n s, a, None) st'
    | Return (s, a, Some e) st' =>
        match n with
        | 0 => Return (s, a, Some e) st'
        | S _ => Return ("", [], Some e) st'
        end
    end.
Proof.
  induction n as [|n IH].
  - cbn. destruct (Translate c t st) as [|[[s a] [e|]] st']; reflexivity.
  - change (negate (S n) c) with (NotCondition (negate n c)).
    cbn [Translate]. unfold bind. rewrite IH.
    destruct (Translate c t st) as [|[[s a] [e|]] st']; [reflexivity| |].
    + now destruct n.
    + reflexivity.
Qed.

(** * Schemas and fields *)

Import schema.

Section SchemaFacts.

Context {rt : GoRuntime}.

Lemma GetField_AddField (s : BaseSchema) (field : Field) (name : string) :
  BaseSchema_GetField (BaseSchema_AddField s field) name
  = if name =? Field_Name field then Some field
    else BaseSchema_GetField s name.
Proof. apply lookup_insert. Qed.

Lemma schemaOf_app (name : string) (fs : list Field) (field : Field) :
  schemaOf name (fs ++ [field])
  = BaseSchema_AddField (schemaOf name fs) field.
Proof. unfold schemaOf. now rewrite fold_left_app. Qed.

Lemma fieldList_schemaOf (name : string) (fs : list Field) :
  fieldList (schemaOf name fs) = fs.
Proof.
  induction fs as [|field fs IH] using rev_ind; [reflexivity|].
  rewrite schemaOf_app. cbn. now rewrite IH.
Qed.

(** X2: a schema built by adding the fields of a list one by one lists
    all of them in the order added, duplicates of a name included, while
    [GetField] answers a name with the field added last under it, and
    with nil for a name never added. *)
Theorem schemaOf_fields (name : string) (fs : list Field) :
  BaseSchema_TableName (schemaOf name fs) = name
  /\ BaseSchema_Fields (schemaOf name fs) = fs
  /\ forall fieldName,
       BaseSchema_GetField (schemaOf name fs) fieldName
       = find (fun f => Field_Name f =? fieldName) (rev fs).
Proof.
  induction fs as [|field fs IH] using rev_ind.
  - repeat split.
  - rewrite schemaOf_app.
    destruct IH as (Hname & Hfields & Hget).
    split; [exact Hname|].
    split.
    + unfold BaseSchema_Fields in *. cbn. now rewrite Hfields.
    + intros fieldName.
      rewrite GetField_AddField, rev_app_distr. cbn.
      rewrite (String.eqb_sym fieldName).
      destruct (Field_Name field =? fieldName); [reflexivity|apply Hget].
Qed.

(** X3: [PrimaryKeyField] answers with the first primary field in the
    order the fields were added: every field added before it is not
    primary; it answers nil exactly when no field is primary. *)
Theorem PrimaryKeyField_first (name : string) (fs : list Field) :
  match BaseSchema_PrimaryKeyField (schemaOf name fs) with
  | Some field =>
      Field_Primary field = true
      /\ exists before after,
           fs = (before ++ field :: after)%list
           /\ Forall (fun f => Field_Primary f = false) before
  | None => Forall (fun f => Field_Primary f = false) fs
  end.
Proof.
  unfold BaseSchema_PrimaryKeyField.
  rewrite fieldList_schemaOf.
  induction fs as [|f fs IH]; cbn; [constructor|].
  destruct (Field_Primary f) eqn:Hf.
  - split; [assumption|]. exists [], fs. split; [reflexivity|constructor].
  - destruct (find Field_Primary fs) as [field|].
    + destruct IH as (Hprimary & before & after & -> & Hbefore).
      split; [assumption|].
      exists (f :: before), after. split; [reflexivity|].
      now constructor.
    + now constructor.
Qed.

Lemma chain_app (fb : FieldBuilder) (calls : list builderCall)
    (c : builderCall) :
  chain fb (calls ++ [c]) = call (chain fb calls) c.
Proof. unfold chain. now rewrite fold_left_app. Qed.

(** X4: whatever builder methods are called on [NewField name type], in
    whatever order, the field built keeps that name and that type, is
    primary exactly when [PrimaryKey] was called, is auto-incremented
    exactly when it is primary, and holds the validators passed to
    [Validate] in the order of the calls. *)
Theorem FieldBuilder_chain (name : string) (fieldType : FieldType)
    (calls : list builderCall) :
  let field := FieldBuilder_Build (chain (NewField name fieldType) calls) in
  Field_Name field = name
  /\ Field_Type field = fieldType
  /\ Field_Primary field = existsb isPrimaryKeyCall calls
  /\ Field_Autoinc field = Field_Primary field
  /\ Field_Validators field = validatorsOf calls.
Proof.
  induction calls as [|c calls IH] using rev_ind; [repeat split|].
  cbn zeta in *. rewrite chain_app.
  destruct IH as (Hname & Htype & Hprimary & Hautoinc & Hvalidators).
  unfold validatorsOf in *.
  rewrite existsb_app, flat_map_app. cbn [existsb flat_map].
  rewrite orb_false_r, app_nil_r.
  unfold FieldBuilder_Build in *.
  destruct c; cbn; rewrite ?orb_false_r, ?app_nil_r;
    repeat split; try assumption.
  - now rewrite orb_true_r.
  - now rewrite Hvalidators.
Qed.

End SchemaFacts.

(** * Validators *)

Section ValidatorFacts.

Context {rt : GoRuntime}.

(** X5: the length validator accepts exactly the strings whose length in
    bytes respects both bounds, where a bound that is zero or negative
    is no bound; every value that is not a string is rejected. *)
Theorem LengthValidator_accepts (Min Max : Z) (value : any) :
  accepts (LengthValidator Min Max) value
  <-> exists str,
        value = AString str
        /\ (Min <= 0 \/ Min <= Z.of_nat (String.length str))%Z
        /\ (Max <= 0 \/ Z.of_nat (String.length str) <= Max)%Z.
Proof.
  unfold accepts. cbn [Validate].
  destruct value as [|b|k n|k x|str|t|name repr];
    try (split; [discriminate|intros (str' & Hstr & _); discriminate]).
  cbn.
  destruct (0 <? Min)%Z eqn:Hmin, (Z.of_nat (String.length str) <? Min)%Z eqn:Hlow;
    cbn;
    try (destruct (0 <? Max)%Z eqn:Hmax,
                  (Max <? Z.of_nat (String.length str))%Z eqn:Hhigh; cbn);
    rewrite ?Z.ltb_lt, ?Z.ltb_ge in *;
    (split;
     [ try discriminate; intros _; exists str; repeat split; lia
     | intros (str' & Hstr & Hlo & Hhi); injection Hstr as <-;
       try reflexivity; lia ]).
Qed.

(** X6: with an upper bound above zero, the length validator accepts a
    value exactly when the minimum-length and the maximum-length
    validators of the same bounds both accept it. *)
Theorem LengthValidator_splits (Min Max : Z) (value : any) :
  (0 < Max)%Z ->
  accepts (LengthValidator Min Max) value
  <-> accepts (MinLengthValidator Min) value
      /\ accepts (MaxLengthValidator Max) value.
Proof.
  intros Hmax.
  unfold accepts. cbn [Validate].
  destruct value as [|b|k n|k x|str|t|name repr];
    try (split; [|intros [Hmin _]]; discriminate).
  cbn.
  apply Z.ltb_lt in Hmax as Hmax'. rewrite Hmax'. cbn [andb].
  destruct (0 <? Min)%Z eqn:Hmin,
           (Z.of_nat (String.length str) <? Min)%Z eqn:Hlow,
           (Max <? Z.of_nat (String.length str))%Z eqn:Hhigh;
    cbn; rewrite ?Z.ltb_lt, ?Z.ltb_ge in *;
    (split; [intros H|intros [Hlo Hhi]]);
    try discriminate; try (split; reflexivity); try reflexivity; lia.
Qed.

(** X7: the message of a too short string does not spell the minimum in
    digits: for a minimum from 1 to 127 it ends with the single
    character whose code is the minimum. *)
Theorem LengthValidator_message (Min Max : Z) (str : string) :
  (0 < Min < 128)%Z ->
  (Z.of_nat (String.length str) < Min)%Z ->
  Validate (LengthValidator Min Max) (AString str)
  = Some (ValidationError "length"
            ("字段长度不能小于 "
               ++ String (ascii_of_N (Z.to_N Min)) EmptyString)).
Proof.
  intros [Hpos Hsmall] Hshort.
  cbn.
  apply Z.ltb_lt in Hpos as Hpos', Hshort as Hshort'.
  rewrite Hpos', Hshort'. cbn [andb].
  unfold NewValidationError, runeString.
  assert (wrap32 Min = Min) as ->.
  { unfold wrap32. rewrite Z.mod_small; lia. }
  assert (validRune Min = true) as ->.
  { unfold validRune.
    apply orb_true_iff. left. apply andb_true_iff.
    split; [apply Z.leb_le|apply Z.ltb_lt]; lia. }
  unfold utf8.
  apply Z.ltb_lt in Hsmall as ->.
  reflexivity.
Qed.

End ValidatorFacts.

Lemma LengthValidator_splits_witness :
  (0 < 5)%Z
  /\ (accepts (rt := wholeNumbers) (LengthValidator 2 5) (AString "abc")
      <-> accepts (rt := wholeNumbers) (MinLengthValidator 2) (AString "abc")
          /\ accepts (rt := wholeNumbers) (MaxLengthValidator 5)
                     (AString "abc")).
Proof.
  split; [lia|].
  apply (LengthValidator_splits (rt := wholeNumbers) 2 5 (AString "abc")).
  lia.
Defined.

Lemma LengthValidator_message_witness :
  Validate (rt := wholeNumbers) (LengthValidator 65 0) (AString "abc")
  = Some (ValidationError "length" "字段长度不能小于 A").
Proof.
  apply (LengthValidator_message (rt := wholeNumbers) 65 0 "abc");
    cbn; lia.
Defined.

(** * Value conversion *)

Section ConversionFacts.

Context {rt : GoRuntime}.

Ltac conversion_error He :=
  injection He as <-;
  left; split; [reflexivity|];
  eexists; split; reflexivity.

Ltac parse_error He Htime Hparse :=
  injection He as <-;
  right; split; [now apply String.eqb_eq|];
  eexists _, _, _;
  split; [reflexivity|];
  split; [exact Hparse|];
  split; reflexivity.

Ltac conversion_result Htime Hparse :=
  eexists _, _;
  split; [reflexivity|];
  split; [first [discriminate|intros _; split; reflexivity]|];
  let e := fresh "e" in
  let He := fresh "He" in
  intros e He;
  first [discriminate|conversion_error He|parse_error He Htime Hparse].

(** X8: [ConvertValue] never panics, although its helpers would on nil:
    nil converts to nil for every target type.  An error is of one of
    two kinds.  Either it is a conversion error that comes with the nil
    value and names the dynamic type of the value it was given and the
    Go type of the target, also when the target is the time type; or
    the target is the time type, the value is a string that does not
    parse, and the error is that of the parser, returned with the time
    the parser returned. *)
Theorem ConvertValue_total (value : any) (targetType : FieldType) :
  exists result err,
    ConvertValue value targetType = Some (result, err)
    /\ (value = ANil -> result = ANil /\ err = None)
    /\ (forall e, err = Some e ->
          (result = ANil
           /\ exists From,
                e = TypeConversionError From (conversionTarget targetType)
                /\ typeName value = Some From)
          \/ (targetType = TypeTime
              /\ exists str t msg,
                   value = AString str
                   /\ parseRFC3339 str = (t, Some msg)
                   /\ result = ATime t
                   /\ e = ErrorString msg)).
Proof.
  unfold ConvertValue, conversionTarget.
  pose proof I as Htime. pose proof I as Hparse.
  destruct value as [|b|k n|k x|str|t|name repr];
    [conversion_result Htime Hparse|..];
    clear Htime;
    (destruct (targetType =? TypeString);
       [conversion_result I Hparse|]);
    destruct (targetType =? TypeInteger) eqn:Hinteger;
    destruct (targetType =? TypeFloat) eqn:Hfloat;
    destruct (targetType =? TypeBoolean) eqn:Hboolean;
    destruct (targetType =? TypeTime) eqn:Htime;
    cbn; try destruct k; clear Hparse;
    try destruct (parseRFC3339 str) as [t' [msg|]] eqn:Hparse;
    cbn;
    first [conversion_result Htime Hparse|conversion_result Htime I].
Qed.

Lemma ConvertValue_returns (value : any) (targetType : FieldType) :
  exists result err, ConvertValue value targetType = Some (result, err).
Proof.
  unfold ConvertValue, valueToInt64, valueToFloat64, valueToBoolean,
    valueToTime, cannotConvert.
  destruct value as [|b|k n|k x|str|t|name repr];
    try destruct k; cbn;
    repeat match goal with
           | |- context [if ?c then _ else _] => destruct c
           | |- context [parseRFC3339 ?s] => destruct (parseRFC3339 s)
           end;
    eexists _, _; reflexivity.
Qed.

(** X9: a successful conversion is stable: converting its result to the
    same target type again succeeds and returns that result. *)
Theorem ConvertValue_idempotent (value result : any) (targetType : FieldType) :
  ConvertValue value targetType = Some (result, None) ->
  ConvertValue result targetType = Some (result, None).
Proof.
  unfold ConvertValue.
  destruct value as [|b|k n|k x|str|t|name repr];
    [intros H; injection H as <-; reflexivity|..];
    (destruct (targetType =? TypeString);
       [intros H; injection H as <-; reflexivity|]);
    (destruct (targetType =? TypeInteger);
       [try destruct k; cbn; intros H; try discriminate;
        injection H as <-; reflexivity|]);
    (destruct (targetType =? TypeFloat);
       [try destruct k; cbn; intros H; try discriminate;
        injection H as <-; reflexivity|]);
    (destruct (targetType =? TypeBoolean);
       [try destruct k; cbn; intros H; try discriminate;
        injection H as <-; reflexivity|]);
    (destruct (targetType =? TypeTime);
       [|intros H; injection H as <-; reflexivity]);
    cbn; try destruct k; try destruct (parseRFC3339 str) as [t' [msg|]];
    cbn; intros H; try discriminate; injection H as <-; reflexivity.
Qed.

(** X10: a target type other than integer, float, boolean and time
    converts nothing: the value comes back as it was given.  The string
    type is among them, and so is any unknown type. *)
Theorem ConvertValue_passes (value : any) (targetType : FieldType) :
  targetType <> TypeInteger -> targetType <> TypeFloat ->
  targetType <> TypeBoolean -> targetType <> TypeTime ->
  ConvertValue value targetType = Some (value, None).
Proof.
  intros Hinteger Hfloat Hboolean Htime.
  apply String.eqb_neq in Hinteger, Hfloat, Hboolean, Htime.
  unfold ConvertValue.
  rewrite Hinteger, Hfloat, Hboolean, Htime.
  destruct value; try reflexivity;
    now destruct (targetType =? TypeString).
Qed.

(** X11: every string converts to a boolean without error, and to true
    exactly for the three spellings true, 1 and yes, in lower case. *)
Theorem ConvertValue_boolean_of_string (str : string) :
  exists b,
    ConvertValue (AString str) TypeBoolean = Some (ABool b, None)
    /\ (b = true <-> str = "true" \/ str = "1" \/ str = "yes").
Proof.
  eexists. split; [reflexivity|].
  rewrite !orb_true_iff, !String.eqb_eq. tauto.
Qed.

(** X12: the two conversions do not compose: what the integer conversion
    returns for a value other than nil is an int64, which the boolean
    conversion refuses. *)
Theorem ConvertValue_integer_then_boolean (value result : any) :
  value <> ANil ->
  ConvertValue value TypeInteger = Some (result, None) ->
  ConvertValue result TypeBoolean
  = Some (ANil, Some (TypeConversionError "int64" "bool")).
Proof.
  intros Hvalue.
  destruct value as [|b|k n|k x|str|t|name repr]; [contradiction|..];
    cbn; try destruct k; cbn; intros H; try discriminate;
    injection H as <-; reflexivity.
Qed.

End ConversionFacts.

Lemma ConvertValue_idempotent_witness :
  ConvertValue (rt := wholeNumbers) (AString "yes") TypeBoolean
    = Some (ABool true, None)
  /\ ConvertValue (rt := wholeNumbers) (ABool true) TypeBoolean
    = Some (ABool true, None).
Proof.
  split; [reflexivity|].
  apply (ConvertValue_idempotent (rt := wholeNumbers)
           (AString "yes") (ABool true) TypeBoolean).
  reflexivity.
Defined.

Lemma ConvertValue_passes_witness :
  ConvertValue (rt := wholeNumbers) (AInt KInt 42) TypeString
  = Some (AInt KInt 42, None).
Proof.
  apply (ConvertValue_passes (rt := wholeNumbers) (AInt KInt 42) TypeString);
    discriminate.
Defined.

Lemma ConvertValue_integer_then_boolean_witness :
  ConvertValue (rt := wholeNumbers) (AInt KInt 1) TypeInteger
    = Some (AInt KInt64 1, None)
  /\ ConvertValue (rt := wholeNumbers) (AInt KInt64 1) TypeBoolean
    = Some (ANil, Some (TypeConversionError "int64" "bool")).
Proof.
  split; [reflexivity|].
  apply (ConvertValue_integer_then_boolean (rt := wholeNumbers)
           (AInt KInt 1) (AInt KInt64 1)).
  - discriminate.
  - reflexivity.
Defined.

(** * Dynamic tables *)

Import dynamic_table.

Section DynamicTableFacts.

Context {rt : GoRuntime}.

Lemma normalized_validStrategy (config : DynamicTableConfig) :
  validStrategy (normalized config)
  /\ TableName (normalized config) = TableName config
  /\ (validStrategy config -> normalized config = config).
Proof.
  unfold normalized, validStrategy.
  destruct (Strategy config =? "auto") eqn:Hauto;
    [apply String.eqb_eq in Hauto; cbn; tauto|].
  destruct (Strategy config =? "manual") eqn:Hmanual;
    [apply String.eqb_eq in Hmanual; cbn; tauto|].
  apply String.eqb_neq in Hauto, Hmanual.
  cbn. repeat split; [now left|tauto].
Qed.

(** X13: [Register] succeeds exactly when the name is free and the
    table name is not empty.  A failed call leaves the registry as it
    was, so a registered name is never overwritten; a successful call
    binds the name to the configuration, its strategy replaced by auto
    when it was neither auto nor manual, and changes no other name. *)
Theorem Register_outcome (r : DynamicTableRegistry) (name : string)
    (config : DynamicTableConfig) :
  let result := DynamicTableRegistry_Register r name config in
  (snd result = None
   <-> smap.lookup name (configs r) = None /\ TableName config <> "")
  /\ (snd result <> None -> fst result = r)
  /\ (snd result = None ->
      DynamicTableRegistry_Get (fst result) name
      = (Some (normalized config), None)
      /\ forall other, other <> name ->
           DynamicTableRegistry_Get (fst result) other
           = DynamicTableRegistry_Get r other).
Proof.
  unfold DynamicTableRegistry_Register.
  destruct (smap.lookup name (configs r)) as [present|] eqn:Hname;
    cbn [fst snd].
  { repeat split; try discriminate. now intros [Hfree _]. }
  destruct (TableName config =? "") eqn:Htable; cbn [fst snd].
  { apply String.eqb_eq in Htable.
    repeat split; try discriminate. now intros [_ Hne]. }
  apply String.eqb_neq in Htable.
  repeat split; try assumption; try contradiction.
  - unfold DynamicTableRegistry_Get. cbn [configs].
    now rewrite lookup_insert, String.eqb_refl.
  - intros other Hother.
    unfold DynamicTableRegistry_Get. cbn [configs].
    apply String.eqb_neq in Hother.
    now rewrite lookup_insert, Hother.
Qed.

(** X14: whatever calls of [Register] and [Unregister] a registry has
    seen, failed or not, every configuration it holds has a table name
    that is not empty and a strategy that is auto or manual. *)
Theorem registry_holds_valid_configs (calls : list registryCall)
    (name : string) (config : DynamicTableConfig) :
  DynamicTableRegistry_Get (registryAfter calls) name = (Some config, None) ->
  TableName config <> "" /\ validStrategy config.
Proof.
  unfold registryAfter.
  assert (forall r,
             (forall k c, smap.lookup k (configs r) = Some c ->
                          TableName c <> "" /\ validStrategy c) ->
             forall k c,
               smap.lookup k (configs (fold_left applyRegistryCall calls r))
               = Some c ->
               TableName c <> "" /\ validStrategy c) as Hrun.
  { induction calls as [|call calls IH]; intros r Hr; [exact Hr|].
    cbn [fold_left]. apply IH.
    intros k c.
    destruct call as [n cfg|n]; cbn [applyRegistryCall].
    - unfold DynamicTableRegistry_Register.
      destruct (smap.lookup n (configs r)); [apply Hr|].
      destruct (TableName cfg =? "") eqn:Htable; [apply Hr|].
      cbn [fst configs]. rewrite lookup_insert.
      destruct (k =? n); [|apply Hr].
      intros Hc. injection Hc as <-.
      apply String.eqb_neq in Htable.
      destruct (normalized_validStrategy cfg) as (Hvalid & Hsame & _).
      rewrite Hsame. now split.
    - unfold DynamicTableRegistry_Unregister.
      destruct (smap.lookup n (configs r)); [|apply Hr].
      cbn [fst configs]. rewrite lookup_delete.
      destruct (k =? n); [discriminate|apply Hr]. }
  unfold DynamicTableRegistry_Get.
  destruct (smap.lookup name
              (configs (fold_left applyRegistryCall calls
                          NewDynamicTableRegistry)))
    as [c|] eqn:Hc; [|discriminate].
  intros Hget. injection Hget as <-.
  apply (Hrun NewDynamicTableRegistry) with (k := name); [|exact Hc].
  intros k c0. discriminate.
Qed.

(** X15: a configuration registered and then unregistered under the
    same name leaves every name of the registry answering as before the
    two calls. *)
Theorem Register_Unregister (r : DynamicTableRegistry) (name : string)
    (config : DynamicTableConfig) :
  snd (DynamicTableRegistry_Register r name config) = None ->
  let r' := fst (DynamicTableRegistry_Register r name config) in
  snd (DynamicTableRegistry_Unregister r' name) = None
  /\ forall k,
       DynamicTableRegistry_Get
         (fst (DynamicTableRegistry_Unregister r' name)) k
       = DynamicTableRegistry_Get r k.
Proof.
  unfold DynamicTableRegistry_Register.
  destruct (smap.lookup name (configs r)) as [present|] eqn:Hname;
    [discriminate|].
  destruct (TableName config =? ""); [discriminate|].
  intros _. cbn [fst snd].
  unfold DynamicTableRegistry_Unregister. cbn [configs].
  rewrite lookup_insert, String.eqb_refl. cbn [fst snd].
  split; [reflexivity|].
  intros k. unfold DynamicTableRegistry_Get. cbn [configs].
  rewrite lookup_delete, lookup_insert.
  destruct (k =? name) eqn:Hk; [|reflexivity].
  apply String.eqb_eq in Hk. subst k. now rewrite Hname.
Qed.


(** X17: whatever methods are called on [NewDynamicTableField name type],
    the field keeps that name and that type, and a field that is primary
    does not allow null. *)
Theorem builtField_primary_not_null (name : string) (fieldType : FieldType)
    (calls : list fieldCall) :
  let field := builtField name fieldType calls in
  DynamicTableField_Name field = name
  /\ DynamicTableField_Type field = fieldType
  /\ (DynamicTableField_Primary field = true ->
      DynamicTableField_Null field = false).
Proof.
  unfold builtField.
  induction calls as [|c calls IH] using rev_ind; [cbn; repeat split; discriminate|].
  rewrite fold_left_app. cbn [fold_left].
  cbn zeta in IH. destruct IH as (Hname & Htype & Hprimary).
  destruct c; cbn; repeat split; assumption.
Qed.

End DynamicTableFacts.

Lemma registry_holds_valid_configs_witness :
  let config :=
    DynamicTableConfig_WithStrategy (rt := wholeNumbers)
      (NewDynamicTableConfig "orders") "manual" in
  let calls :=
    [CallRegister "orders" (setStrategy config "sometimes");
     CallRegister "orders" config;
     CallUnregister "missing"] in
  DynamicTableRegistry_Get (registryAfter calls) "orders"
    = (Some (setStrategy config "auto"), None)
  /\ TableName (setStrategy config "auto") <> ""
  /\ validStrategy (setStrategy config "auto").
Proof.
  intros config calls.
  assert (DynamicTableRegistry_Get (registryAfter calls) "orders"
          = (Some (setStrategy config "auto"), None)) as Hget
    by reflexivity.
  split; [exact Hget|].
  apply (registry_holds_valid_configs (rt := wholeNumbers) calls "orders").
  exact Hget.
Defined.

Lemma Register_Unregister_witness :
  let r := registryAfter (rt := wholeNumbers)
             [CallRegister "orders" (NewDynamicTableConfig "orders")] in
  let config := NewDynamicTableConfig (rt := wholeNumbers) "events" in
  let r' := fst (DynamicTableRegistry_Register r "events" config) in
  snd (DynamicTableRegistry_Register r "events" config) = None
  /\ snd (DynamicTableRegistry_Unregister r' "events") = None
  /\ forall k,
       DynamicTableRegistry_Get
         (fst (DynamicTableRegistry_Unregister r' "events")) k
       = DynamicTableRegistry_Get r k.
Proof.
  intros r config r'.
  split; [reflexivity|].
  apply (Register_Unregister (rt := wholeNumbers) r "events" config).
  reflexivity.
Defined.

(** * Changesets *)

Import changeset.

Lemma lookup_NoDup_In {V : Type} (l : smap.t V) (k : string) (v : V) :
  NoDup (map fst l) ->
  List.In (k, v) l <-> smap.lookup k l = Some v.
Proof.
  induction l as [|[k0 v0] l IH]; cbn; intros Hnodup.
  - split; [contradiction|discriminate].
  - inversion Hnodup as [|? ? Hout Hrest]; subst.
    destruct (k =? k0) eqn:Hk.
    + apply String.eqb_eq in Hk. subst k0.
      split.
      * intros [Heq|Hin]; [now injection Heq as ->|].
        exfalso. apply Hout. apply in_map_iff. now exists (k, v).
      * intros Hv. injection Hv as ->. now left.
    + apply String.eqb_neq in Hk.
      rewrite <- (IH Hrest).
      split; [intros [Heq|Hin]; [congruence|assumption]|now right].
Qed.

Lemma lookup_entries {V : Type} (m : smap.t V) (k : string) :
  smap.lookup k (smap.entries m) = smap.lookup k m.
Proof.
  destruct (smap.lookup k m) as [v|] eqn:Hm.
  - apply lookup_NoDup_In; [apply entries_NoDup|]. now apply entries_In.
  - destruct (smap.lookup k (smap.entries m)) as [v|] eqn:He; [|reflexivity].
    apply lookup_NoDup_In in He; [|apply entries_NoDup].
    apply entries_In in He. congruence.
Qed.

Lemma lookup_not_In {V : Type} (l : smap.t V) (k : string) :
  smap.lookup k l = None <-> ~ List.In k (map fst l).
Proof.
  induction l as [|[k0 v0] l IH]; cbn; [tauto|].
  destruct (k =? k0) eqn:Hk.
  - apply String.eqb_eq in Hk. subst k0.
    split; [discriminate|]. intros Hout. exfalso. apply Hout. now left.
  - apply String.eqb_neq in Hk. rewrite IH.
    split; [intros Hout [Heq|Hin]; [congruence|tauto]|tauto].
Qed.

Section CastFacts.

Context {rt : GoRuntime}.

Lemma addError_errors (cs : Changeset) (fieldName message k : string) :
  smap.lookup k (errors (addError cs fieldName message))
  = if k =? fieldName
    then withMessages (smap.lookup fieldName (errors cs)) [message]
    else smap.lookup k (errors cs).
Proof.
  unfold addError. cbn [errors withErrors].
  rewrite lookup_insert.
  destruct (k =? fieldName); [|reflexivity].
  now destruct (smap.lookup fieldName (errors cs)).
Qed.

Lemma withMessages_cons (present : option (list string)) (message : string)
    (messages : list string) :
  withMessages (withMessages present [message]) messages
  = withMessages present (message :: messages).
Proof.
  destruct messages as [|m ms]; [reflexivity|].
  cbn. now rewrite <- app_assoc.
Qed.

Lemma withMessages_app (present : option (list string))
    (first second : list string) :
  withMessages (withMessages present first) second
  = withMessages present (first ++ second).
Proof.
  destruct first as [|m ms]; [reflexivity|].
  destruct second as [|m' ms']; [now rewrite app_nil_r|].
  cbn. now rewrite <- app_assoc.
Qed.

Lemma applyTransformers_spec (key : string) (ts : list Transformer) :
  forall (cs : Changeset) (value : any),
  exists cs',
    applyTransformers key ts (cs, value) = (cs', transformedValue ts value)
    /\ data cs' = data cs /\ changes cs' = changes cs
    /\ schema cs' = schema cs /\ valid cs' = valid cs
    /\ previousValues cs' = previousValues cs
    /\ forall k,
         smap.lookup k (errors cs')
         = if k =? key
           then withMessages (smap.lookup key (errors cs))
                             (transformerMessages ts value)
           else smap.lookup k (errors cs).
Proof.
  unfold applyTransformers.
  induction ts as [|t ts IH]; intros cs value; cbn [fold_left].
  - exists cs. repeat split. intros k.
    destruct (k =? key) eqn:Hk; [|reflexivity].
    apply String.eqb_eq in Hk. now subst k.
  - cbn [transformedValue transformerMessages].
    destruct (Transform t value) as [transformed [err|]].
    + destruct (IH (addError cs key ("转换器错误: " ++ Error err)) value)
        as (cs' & Hrun & Hd & Hc & Hs & Hv & Hp & He).
      exists cs'. rewrite Hrun.
      repeat split; try assumption.
      intros k. rewrite He.
      destruct (k =? key) eqn:Hk.
      * rewrite addError_errors, String.eqb_refl.
        apply withMessages_cons.
      * now rewrite addError_errors, Hk.
    + destruct (IH cs transformed) as (cs' & Hrun & Hrest).
      exists cs'. now rewrite Hrun.
Qed.

Lemma savePrevious_spec (cs : Changeset) (key : string) :
  data (savePrevious cs key) = data cs
  /\ changes (savePrevious cs key) = changes cs
  /\ errors (savePrevious cs key) = errors cs
  /\ schema (savePrevious cs key) = schema cs
  /\ valid (savePrevious cs key) = valid cs
  /\ forall k,
       smap.lookup k (previousValues (savePrevious cs key))
       = if k =? key
         then match smap.lookup key (data cs) with
              | Some oldValue => Some oldValue
              | None => smap.lookup key (previousValues cs)
              end
         else smap.lookup k (previousValues cs).
Proof.
  unfold savePrevious.
  destruct (smap.lookup key (data cs)) as [oldValue|];
    repeat split; intros k; cbn [previousValues withPreviousValues].
  - rewrite lookup_insert. now destruct (k =? key).
  - destruct (k =? key) eqn:Hk; [|reflexivity].
    apply String.eqb_eq in Hk. now subst k.
Qed.

Lemma castBinding_view (cs : Changeset) (key : string) (value : any) :
  exists cs',
    castBinding cs key value = Some cs'
    /\ schema cs' = schema cs /\ valid cs' = valid cs
    /\ forall k,
         viewOf cs' k
         = if k =? key then castAt (schema cs) key value (viewOf cs key)
           else viewOf cs k.
Proof.
  unfold castBinding, castAt.
  destruct (BaseSchema_GetField (schema cs) key) as [field|].
  2:{ exists cs. repeat split. intros k.
      destruct (k =? key) eqn:Hk; [|reflexivity].
      apply String.eqb_eq in Hk. now subst k. }
  destruct (savePrevious_spec cs key) as (Hd0 & Hc0 & He0 & Hs0 & Hv0 & Hp0).
  destruct (applyTransformers_spec key (Field_Transformers field)
              (savePrevious cs key) value)
    as (cs1 & Hrun & Hd & Hc & Hs & Hv & Hp & He).
  rewrite Hrun.
  destruct (ConvertValue_returns
              (transformedValue (Field_Transformers field) value)
              (Field_Type field)) as (result & err & Hconvert).
  rewrite Hconvert.
  unfold viewOf.
  destruct err as [err|].
  - eexists. split; [reflexivity|].
    cbn [schema valid data changes previousValues addError withErrors].
    repeat split; try congruence.
    intros k. rewrite addError_errors, Hd, Hc, Hp, Hd0, Hc0, Hp0.
    destruct (k =? key) eqn:Hk.
    + rewrite (He key), String.eqb_refl, He0, withMessages_app.
      apply String.eqb_eq in Hk. now subst k.
    + now rewrite (He k), Hk, He0.
  - eexists. split; [reflexivity|].
    cbn [schema valid data changes errors previousValues
         withData withChanges].
    repeat split; try congruence.
    intros k. rewrite !lookup_insert, (He k), Hp, Hd, Hc, Hd0, Hc0, He0, Hp0.
    destruct (k =? key) eqn:Hk; [|reflexivity].
    apply String.eqb_eq in Hk. now subst k.
Qed.

Lemma castBindings_view (l : smap.t any) :
  NoDup (map fst l) ->
  forall cs,
  exists cs',
    fold_left
      (fun acc kv =>
         match acc with
         | None => None
         | Some cs0 => castBinding cs0 (fst kv) (snd kv)
         end) l (Some cs) = Some cs'
    /\ schema cs' = schema cs /\ valid cs' = valid cs
    /\ forall k,
         viewOf cs' k
         = match smap.lookup k l with
           | None => viewOf cs k
           | Some value => castAt (schema cs) k value (viewOf cs k)
           end.
Proof.
  induction l as [|[k0 v0] l IH]; intros Hnodup cs; cbn [fold_left].
  - exists cs. repeat split.
  - inversion Hnodup as [|? ? Hout Hrest]; subst.
    destruct (castBinding_view cs k0 v0) as (cs0 & Hstep & Hs0 & Hv0 & Hview0).
    cbn [fst snd]. rewrite Hstep.
    destruct (IH Hrest cs0) as (cs' & Hrun & Hs & Hv & Hview).
    exists cs'. split; [exact Hrun|].
    split; [congruence|]. split; [congruence|].
    intros k. rewrite Hview, Hview0, Hs0. cbn [smap.lookup].
    destruct (k =? k0) eqn:Hk; [|reflexivity].
    apply String.eqb_eq in Hk. subst k.
    apply lookup_not_In in Hout. now rewrite Hout.
Qed.

(** [Cast] never panics and keeps the schema and the valid flag; what it
    leaves for a key depends on the binding of that key alone, so the
    order in which the input is visited does not matter. *)
Lemma Cast_view (cs : Changeset) (input : smap.t any) :
  exists cs',
    Changeset_Cast cs input = Some cs'
    /\ schema cs' = schema cs /\ valid cs' = valid cs
    /\ forall k,
         viewOf cs' k
         = match smap.lookup k input with
           | None => viewOf cs k
           | Some value => castAt (schema cs) k value (viewOf cs k)
           end.
Proof.
  destruct (castBindings_view (smap.entries input) (entries_NoDup input) cs)
    as (cs' & Hrun & Hs & Hv & Hview).
  exists cs'. unfold Changeset_Cast.
  repeat split; try assumption.
  intros k. now rewrite Hview, lookup_entries.
Qed.

End CastFacts.

Section CastTheorems.

Context {rt : GoRuntime}.

Lemma GetError_withMessages (cs cs' : Changeset) (k : string)
    (messages : list string) :
  smap.lookup k (errors cs')
  = withMessages (smap.lookup k (errors cs)) messages ->
  Changeset_GetError cs' k = (Changeset_GetError cs k ++ messages)%list.
Proof.
  unfold Changeset_GetError. intros ->.
  destruct messages as [|m ms]; cbn.
  - now rewrite app_nil_r.
  - reflexivity.
Qed.


(** X19: for a key that the input binds and the schema knows, when the
    value that the transformers pass on converts to the type of the
    field, [Cast] stores the converted value as the data and as the
    change of the key and keeps the data it replaces as the previous
    value.  A transformer that fails does not stop this: its message is
    added to the errors of the key and the next transformer gets the
    value the failed one was given. *)
Theorem Cast_converts (cs cs' : Changeset) (input : smap.t any)
    (k : string) (value converted : any) (field : Field) :
  smap.lookup k input = Some value ->
  BaseSchema_GetField (schema cs) k = Some field ->
  ConvertValue (transformedValue (Field_Transformers field) value)
               (Field_Type field) = Some (converted, None) ->
  Changeset_Cast cs input = Some cs' ->
  Changeset_Get cs' k = converted
  /\ Changeset_GetChanged cs' k = (converted, true)
  /\ Changeset_GetPrevious cs' k
     = match smap.lookup k (data cs) with
       | Some oldValue => oldValue
       | None => Changeset_GetPrevious cs k
       end
  /\ Changeset_GetError cs' k
     = (Changeset_GetError cs k
          ++ transformerMessages (Field_Transformers field) value)%list.
Proof.
  intros Hinput Hfield Hconvert Hcast.
  destruct (Cast_view cs input) as (cs0 & Hrun & _ & _ & Hview).
  rewrite Hcast in Hrun. injection Hrun as <-.
  specialize (Hview k). rewrite Hinput in Hview.
  unfold castAt, viewOf in Hview. rewrite Hfield, Hconvert in Hview.
  injection Hview as Hd Hc He Hp.
  unfold Changeset_Get, Changeset_GetChanged, Changeset_GetPrevious.
  rewrite Hd, Hc, Hp.
  repeat split.
  - now destruct (smap.lookup k (data cs)).
  - now apply GetError_withMessages.
Qed.

(** X20: for a key that the input binds and the schema knows, when the
    conversion fails, [Cast] leaves the data and the change of the key
    as they were and adds the message of the failure after those of the
    transformers.  The valid flag stays as it was, and the changeset is
    reported invalid all the same, since it now holds an error. *)
Theorem Cast_conversion_fails (cs cs' : Changeset) (input : smap.t any)
    (k : string) (value result : any) (err : goerror) (field : Field) :
  smap.lookup k input = Some value ->
  BaseSchema_GetField (schema cs) k = Some field ->
  ConvertValue (transformedValue (Field_Transformers field) value)
               (Field_Type field) = Some (result, Some err) ->
  Changeset_Cast cs input = Some cs' ->
  smap.lookup k (data cs') = smap.lookup k (data cs)
  /\ smap.lookup k (changes cs') = smap.lookup k (changes cs)
  /\ Changeset_GetError cs' k
     = (Changeset_GetError cs k
          ++ transformerMessages (Field_Transformers field) value
          ++ [("类型转换失败: " ++ Error err)%string])%list
  /\ valid cs' = valid cs
  /\ Changeset_IsValid cs' = false.
Proof.
  intros Hinput Hfield Hconvert Hcast.
  destruct (Cast_view cs input) as (cs0 & Hrun & _ & Hv & Hview).
  rewrite Hcast in Hrun. injection Hrun as <-.
  specialize (Hview k). rewrite Hinput in Hview.
  unfold castAt, viewOf in Hview. rewrite Hfield, Hconvert in Hview.
  injection Hview as Hd Hc He Hp.
  repeat split; try assumption.
  - now apply GetError_withMessages.
  - unfold Changeset_IsValid.
    destruct (smap.isEmpty (errors cs')) eqn:Hempty;
      [|now rewrite andb_false_r].
    rewrite isEmpty_lookup in Hempty.
    rewrite (Hempty k) in He.
    destruct (transformerMessages (Field_Transformers field) value);
      discriminate.
Qed.

End CastTheorems.

Lemma Cast_converts_witness :
  let broken :=
    CustomTransformer (rt := wholeNumbers)
      (fun _ => (ANil, Some (ErrorString "broken"))) in
  let age :=
    FieldBuilder_Build (FieldBuilder_Transform (NewField "age" TypeInteger)
                                               broken) in
  let cs := FromMap (schemaOf "users" [age]) [("age", AInt KInt 29)] in
  let input := [("nickname", AString "x"); ("age", AInt KInt 30)] in
  exists cs',
    Changeset_Cast cs input = Some cs'
    /\ Changeset_Get cs' "age" = AInt KInt64 30
    /\ Changeset_GetChanged cs' "age" = (AInt KInt64 30, true)
    /\ Changeset_GetPrevious cs' "age" = AInt KInt 29
    /\ Changeset_GetError cs' "age" = ["转换器错误: broken"].
Proof.
  intros broken age cs input.
  eexists. split; [reflexivity|].
  apply (Cast_converts (rt := wholeNumbers) cs _ input "age"
           (AInt KInt 30) (AInt KInt64 30) age); reflexivity.
Defined.

Lemma Cast_conversion_fails_witness :
  let age := FieldBuilder_Build (rt := wholeNumbers)
               (NewField "age" TypeInteger) in
  let cs := FromMap (schemaOf "users" [age]) [("age", AInt KInt 29)] in
  let input := [("age", AString "thirty")] in
  exists cs',
    Changeset_Cast cs input = Some cs'
    /\ smap.lookup "age" (data cs') = Some (AInt KInt 29)
    /\ smap.lookup "age" (changes cs') = None
    /\ Changeset_GetError cs' "age"
       = ["类型转换失败: cannot convert string to int64"]
    /\ valid cs' = true
    /\ Changeset_IsValid cs' = false.
Proof.
  intros age cs input.
  eexists. split; [reflexivity|].
  apply (Cast_conversion_fails (rt := wholeNumbers) cs _ input "age"
           (AString "thirty") ANil
           (TypeConversionError "string" "int64") age); reflexivity.
Defined.

Section ValidateFacts.

Context {rt : GoRuntime}.

Lemma sameButValid_eq (cs1 cs2 : Changeset) :
  sameButValid cs1 cs2 -> valid cs1 = valid cs2 -> cs1 = cs2.
Proof.
  unfold sameButValid in *.
  destruct cs1, cs2. unfold withValid. cbn.
  intros Hsame Hvalid. injection Hsame as -> -> -> -> ->. now subst.
Qed.

Lemma sameButValid_addError (cs1 cs2 : Changeset) (name message : string) :
  sameButValid cs1 cs2 ->
  sameButValid (addError cs1 name message) (addError cs2 name message).
Proof.
  unfold sameButValid in *.
  intros Hsame.
  change (addError (withValid cs1 true) name message
          = addError (withValid cs2 true) name message).
  now rewrite Hsame.
Qed.

Lemma runValidators_spec (name : string) (vs : list Validator) (value : any) :
  forall cs,
    let passes :=
      forallb (fun v => match Validate v value with
                        | Some _ => false
                        | None => true
                        end) vs in
    let cs' := runValidators name vs value cs in
    data cs' = data cs /\ changes cs' = changes cs
    /\ schema cs' = schema cs /\ previousValues cs' = previousValues cs
    /\ valid cs' = valid cs && passes
    /\ smap.isEmpty (errors cs') = smap.isEmpty (errors cs) && passes.
Proof.
  unfold runValidators.
  induction vs as [|v vs IH]; intros cs; cbn [fold_left forallb].
  - cbn zeta. now rewrite !andb_true_r.
  - cbn zeta in *.
    destruct (Validate v value) as [err|].
    + destruct (IH (withValid (addError cs name (Error err)) false))
        as (Hd & Hc & Hs & Hp & Hv & He).
      rewrite Hd, Hc, Hs, Hp, Hv, He. cbn.
      now rewrite !andb_false_r.
    + apply IH.
Qed.

Lemma runValidators_sameButValid (name : string) (vs : list Validator)
    (value : any) :
  forall cs1 cs2,
    sameButValid cs1 cs2 ->
    sameButValid (runValidators name vs value cs1)
                 (runValidators name vs value cs2).
Proof.
  unfold sameButValid in *.
  unfold runValidators.
  induction vs as [|v vs IH]; intros cs1 cs2 Hsame; cbn [fold_left];
    [assumption|].
  destruct (Validate v value) as [err|]; [|now apply IH].
  apply IH.
  apply (sameButValid_addError _ _ name (Error err)) in Hsame.
  exact Hsame.
Qed.

Lemma validateField_spec (cs : Changeset) (field : Field) :
  let cs' := validateField cs field in
  data cs' = data cs /\ changes cs' = changes cs
  /\ schema cs' = schema cs /\ previousValues cs' = previousValues cs
  /\ valid cs' = valid cs && fieldPasses (data cs) field
  /\ smap.isEmpty (errors cs')
     = smap.isEmpty (errors cs) && fieldPasses (data cs) field.
Proof.
  unfold validateField, fieldPasses. cbn zeta.
  destruct (smap.lookup (Field_Name field) (data cs)) as [value|].
  - destruct (negb (Field_Null field) && blank value).
    + cbn. now rewrite !andb_false_r.
    + destruct value;
        try apply runValidators_spec;
        now rewrite !andb_true_r.
  - destruct (Field_Null field); cbn;
      now rewrite ?andb_true_r, ?andb_false_r.
Qed.

Lemma validateField_sameButValid (cs1 cs2 : Changeset) (field : Field) :
  sameButValid cs1 cs2 ->
  sameButValid (validateField cs1 field) (validateField cs2 field).
Proof.
  unfold sameButValid in *.
  intros Hsame.
  assert (data cs1 = data cs2) as Hdata.
  { change (data (withValid cs1 true) = data (withValid cs2 true)).
    now rewrite Hsame. }
  unfold validateField. rewrite Hdata.
  destruct (smap.lookup (Field_Name field) (data cs2)) as [value|].
  - destruct (negb (Field_Null field) && blank value).
    + now apply (sameButValid_addError _ _ (Field_Name field)
                   "字段为必填项") in Hsame.
    + destruct value; try assumption;
        now apply runValidators_sameButValid.
  - destruct (negb (Field_Null field)); [|assumption].
    now apply (sameButValid_addError _ _ (Field_Name field)
                 "字段为必填项") in Hsame.
Qed.

Lemma validateFields_spec (fs : list Field) :
  forall cs,
    let cs' := fold_left validateField fs cs in
    data cs' = data cs /\ changes cs' = changes cs
    /\ schema cs' = schema cs /\ previousValues cs' = previousValues cs
    /\ valid cs' = valid cs && forallb (fieldPasses (data cs)) fs
    /\ smap.isEmpty (errors cs')
       = smap.isEmpty (errors cs) && forallb (fieldPasses (data cs)) fs.
Proof.
  induction fs as [|f fs IH]; intros cs; cbn [fold_left forallb].
  - cbn zeta. now rewrite !andb_true_r.
  - cbn zeta in *.
    destruct (validateField_spec cs f) as (Hd0 & Hc0 & Hs0 & Hp0 & Hv0 & He0).
    destruct (IH (validateField cs f)) as (Hd & Hc & Hs & Hp & Hv & He).
    rewrite Hd, Hc, Hs, Hp, Hv, He, Hd0, Hc0, Hs0, Hp0, Hv0, He0.
    now rewrite !andb_assoc.
Qed.

Lemma validateFields_sameButValid (fs : list Field) :
  forall cs1 cs2,
    sameButValid cs1 cs2 ->
    sameButValid (fold_left validateField fs cs1)
                 (fold_left validateField fs cs2).
Proof.
  unfold sameButValid in *.
  induction fs as [|f fs IH]; intros cs1 cs2 Hsame; cbn [fold_left];
    [assumption|].
  now apply IH, validateField_sameButValid.
Qed.

(** X21: [Validate] changes the errors and the valid flag only.  The
    errors it leaves are those of this run: what was recorded before,
    by [Cast] for one, is dropped.  The changeset is reported valid
    afterwards exactly when the valid flag was set before the call and
    every field of the schema passes; a flag that was cleared is never
    set again, whatever the data. *)
Theorem Validate_outcome (cs : Changeset) :
  let cs' := Changeset_Validate cs in
  data cs' = data cs /\ changes cs' = changes cs
  /\ schema cs' = schema cs /\ previousValues cs' = previousValues cs
  /\ (forall recorded, Changeset_Validate (withErrors cs recorded) = cs')
  /\ Changeset_IsValid cs'
     = valid cs
       && forallb (fieldPasses (data cs)) (BaseSchema_Fields (schema cs)).
Proof.
  unfold Changeset_Validate, Changeset_IsValid. cbn zeta.
  destruct (validateFields_spec (BaseSchema_Fields (schema cs))
              (withErrors cs smap.empty))
    as (Hd & Hc & Hs & Hp & Hv & He).
  cbn [data changes schema previousValues valid errors withErrors] in *.
  repeat split; try assumption.
  rewrite Hv, He. cbn [smap.isEmpty smap.empty andb].
  now rewrite <- andb_assoc, andb_diag.
Qed.

(** X22: [Validate] called twice in a row leaves exactly what one call
    leaves: the messages of a field are not doubled. *)
Theorem Validate_idempotent (cs : Changeset) :
  Changeset_Validate (Changeset_Validate cs) = Changeset_Validate cs.
Proof.
  destruct (validateFields_spec (BaseSchema_Fields (schema cs))
              (withErrors cs smap.empty)) as (Hd & Hc & Hs & Hp & _ & _).
  cbn zeta in Hd, Hc, Hs, Hp.
  fold (Changeset_Validate cs) in Hd, Hc, Hs, Hp.
  cbn [data changes schema previousValues withErrors] in Hd, Hc, Hs, Hp.
  apply sameButValid_eq.
  - unfold Changeset_Validate at 1 3.
    rewrite Hs.
    apply validateFields_sameButValid.
    unfold sameButValid.
    destruct cs, (Changeset_Validate _).
    cbn in *. now subst.
  - unfold Changeset_Validate at 1.
    destruct (validateFields_spec
                (BaseSchema_Fields (schema (Changeset_Validate cs)))
                (withErrors (Changeset_Validate cs) smap.empty))
      as (_ & _ & _ & _ & Hv & _).
    cbn zeta in Hv. rewrite Hv.
    cbn [valid data withErrors]. rewrite Hs, Hd.
    unfold Changeset_Validate.
    destruct (validateFields_spec (BaseSchema_Fields (schema cs))
                (withErrors cs smap.empty)) as (_ & _ & _ & _ & Hv0 & _).
    cbn zeta in Hv0. rewrite Hv0.
    cbn [valid data withErrors].
    now rewrite <- andb_assoc, andb_diag.
Qed.

End ValidateFacts.

Section ChangesetFacts.

Context {rt : GoRuntime}.

Lemma lookup_copyInto (from into : smap.t any) (k : string) :
  smap.lookup k (copyInto from into)
  = match smap.lookup k from with
    | Some v => Some v
    | None => smap.lookup k into
    end.
Proof.
  unfold copyInto.
  rewrite <- (lookup_entries from k).
  pose proof (entries_NoDup from) as Hnodup.
  revert into.
  induction (smap.entries from) as [|[k0 v0] l IH]; intros into;
    cbn [fold_left smap.lookup fst snd]; [reflexivity|].
  inversion Hnodup as [|? ? Hout Hrest]; subst.
  rewrite (IH Hrest), lookup_insert.
  destruct (k =? k0) eqn:Hk; [|reflexivity].
  apply String.eqb_eq in Hk. subst k.
  apply lookup_not_In in Hout. now rewrite Hout.
Qed.

(** X23: after [ClearError] the changeset is reported valid exactly
    when no other key holds errors, whether the valid flag was set
    before the call or not: clearing the last key that holds errors
    sets the flag. *)
Theorem ClearError_valid (cs : Changeset) (fieldName : string) :
  Changeset_IsValid (Changeset_ClearError cs fieldName) = true
  <-> forall k, k <> fieldName -> smap.lookup k (errors cs) = None.
Proof.
  unfold Changeset_ClearError, Changeset_IsValid.
  cbn [errors withErrors].
  destruct (smap.isEmpty (smap.delete fieldName (errors cs))) eqn:Hempty;
    cbn [valid errors withValid withErrors].
  - rewrite Hempty. cbn.
    rewrite isEmpty_lookup in Hempty.
    split; [|reflexivity].
    intros _ k Hk. specialize (Hempty k).
    apply String.eqb_neq in Hk.
    now rewrite lookup_delete, Hk in Hempty.
  - rewrite Hempty, andb_false_r.
    split; [discriminate|].
    intros Hnone.
    assert (smap.isEmpty (smap.delete fieldName (errors cs)) = true)
      as Hcontra; [|congruence].
    apply isEmpty_lookup. intros k. rewrite lookup_delete.
    destruct (k =? fieldName) eqn:Hk; [reflexivity|].
    apply Hnone. now apply String.eqb_neq.
Qed.

(** X24: [PutChange] on a name that the schema does not know changes
    nothing.  On a known name it stores the value as given, with no
    conversion and no validation, as the data and as the change of the
    name, keeps the data it replaces as the previous value, and leaves
    the other names, the errors and the valid flag as they were. *)
Theorem PutChange_outcome (cs : Changeset) (fieldName : string)
    (value : any) :
  let cs' := Changeset_PutChange cs fieldName value in
  match BaseSchema_GetField (schema cs) fieldName with
  | None => cs' = cs
  | Some _ =>
      Changeset_Get cs' fieldName = value
      /\ Changeset_GetChanged cs' fieldName = (value, true)
      /\ Changeset_GetPrevious cs' fieldName
         = match smap.lookup fieldName (data cs) with
           | Some oldValue => oldValue
           | None => Changeset_GetPrevious cs fieldName
           end
      /\ errors cs' = errors cs /\ valid cs' = valid cs
      /\ forall k, k <> fieldName -> viewOf cs' k = viewOf cs k
  end.
Proof.
  unfold Changeset_PutChange. cbn zeta.
  destruct (BaseSchema_GetField (schema cs) fieldName); [|reflexivity].
  destruct (savePrevious_spec cs fieldName)
    as (Hd & Hc & He & Hs & Hv & Hp).
  unfold Changeset_Get, Changeset_GetChanged, Changeset_GetPrevious, viewOf.
  cbn [data changes errors valid previousValues withData withChanges].
  rewrite !lookup_insert, String.eqb_refl, (Hp fieldName), String.eqb_refl.
  repeat split; try assumption.
  - now destruct (smap.lookup fieldName (data cs)).
  - intros k Hk. apply String.eqb_neq in Hk.
    now rewrite !lookup_insert, Hk, (Hp k), Hk, Hd, Hc, He.
Qed.

(** X25: [ForceChanges] marks every key of the data as changed, with
    the value the data holds, and keeps the changes of the other keys.
    On a changeset fresh from [FromMap], which is valid and has no
    change, the map that [ToMap] returns afterwards binds exactly what
    the map handed to [FromMap] binds. *)
Theorem ForceChanges_outcome (cs : Changeset) (s : BaseSchema)
    (input : smap.t any) (k : string) :
  Changeset_GetChanged (Changeset_ForceChanges cs) k
  = match smap.lookup k (data cs) with
    | Some v => (v, true)
    | None => Changeset_GetChanged cs k
    end
  /\ Changeset_IsValid (FromMap s input) = true
  /\ Changeset_HasChanged (FromMap s input) k = false
  /\ smap.lookup k (Changeset_ToMap (Changeset_ForceChanges (FromMap s input)))
     = smap.lookup k input.
Proof.
  unfold Changeset_GetChanged, Changeset_ForceChanges, Changeset_ToMap,
    Changeset_Changes, FromMap, Changeset_HasChanged.
  cbn [changes data withChanges withData NewChangeset].
  rewrite !lookup_copyInto.
  repeat split.
  - now destruct (smap.lookup k (data cs)).
  - now destruct (smap.lookup k input).
Qed.

Lemma GetError_addError (cs : Changeset) (name message k : string) :
  Changeset_GetError (addError cs name message) k
  = if k =? name then (Changeset_GetError cs k ++ [message])%list
    else Changeset_GetError cs k.
Proof.
  unfold Changeset_GetError. rewrite addError_errors.
  destruct (k =? name) eqn:Hk; [|reflexivity].
  apply String.eqb_eq in Hk. subst k.
  now destruct (smap.lookup name (errors cs)).
Qed.

(** X26: [ValidateRequired] leaves the data as it is, clears the valid
    flag exactly when a listed name is missing from the data, bound to
    nil or bound to the empty string, and adds its message to such a
    name once for every time the list names it; each further call adds
    the messages again. *)
Theorem ValidateRequired_outcome (fieldNames : list string) :
  forall cs : Changeset,
    let cs' := Changeset_ValidateRequired cs fieldNames in
    data cs' = data cs
    /\ valid cs'
       = valid cs && forallb (fun f => negb (missing (data cs) f)) fieldNames
    /\ forall f,
         Changeset_GetError cs' f
         = (Changeset_GetError cs f
              ++ if missing (data cs) f
                 then repeat (f ++ " is required")%string
                             (count_occ string_dec fieldNames f)
                 else [])%list.
Proof.
  unfold Changeset_ValidateRequired.
  induction fieldNames as [|name names IH]; intros cs;
    cbn [fold_left forallb count_occ].
  - cbn zeta. rewrite andb_true_r. repeat split.
    intros f. destruct (missing (data cs) f); cbn; now rewrite app_nil_r.
  - cbn zeta in *. fold (missing (data cs) name).
    destruct (missing (data cs) name) eqn:Hmissing.
    + destruct (IH (withValid (addError cs name (name ++ " is required"))
                              false)) as (Hd & Hv & He).
      cbn [data valid withValid addError withErrors] in Hd, Hv.
      split; [exact Hd|]. split; [now rewrite Hv, andb_false_r|].
      intros f. rewrite (He f).
      cbn [data withValid addError withErrors].
      change (Changeset_GetError
                (withValid (addError cs name (name ++ " is required")) false)
                f)
        with (Changeset_GetError (addError cs name (name ++ " is required"))
                                 f).
      rewrite GetError_addError.
      destruct (string_dec name f) as [->|Hne].
      * rewrite String.eqb_refl, Hmissing. cbn [repeat].
        now rewrite <- app_assoc.
      * apply not_eq_sym in Hne. apply String.eqb_neq in Hne.
        now rewrite Hne.
    + destruct (IH cs) as (Hd & Hv & He).
      split; [exact Hd|]. split; [exact Hv|].
      intros f. rewrite (He f).
      destruct (string_dec name f) as [->|Hne]; [|reflexivity].
      now rewrite Hmissing.
Qed.

(** X27: [ValidateLength] reports nothing for a name that is missing
    from the data or bound to nil: the changeset stays as it is.  For
    any other value it leaves the data as it is, clears the valid flag
    exactly when the length validator of the same bounds rejects the
    value, and adds to the errors of the name, and of no other name,
    the message that the value is no string, or the messages of the
    bounds that a string breaks, the minimum first; a call that adds no
    message changes nothing. *)
Theorem ValidateLength_outcome (cs : Changeset) (fieldName : string)
    (min max : Z) :
  let cs' := Changeset_ValidateLength cs fieldName min max in
  let bound := smap.lookup fieldName (data cs) in
  data cs' = data cs
  /\ valid cs'
     = valid cs
       && match bound with
          | None | Some ANil => true
          | Some value =>
              match Validate (LengthValidator min max) value with
              | Some _ => false
              | None => true
              end
          end
  /\ (bound = None \/ bound = Some ANil -> cs' = cs)
  /\ (lengthMessages fieldName min max bound = [] -> cs' = cs)
  /\ forall k,
       Changeset_GetError cs' k
       = (Changeset_GetError cs k
            ++ if k =? fieldName
               then lengthMessages fieldName min max bound
               else [])%list.
Proof.
  unfold Changeset_ValidateLength, lengthMessages. cbn zeta.
  assert (forall (c : Changeset) (k : string) (b : bool),
             Changeset_GetError (withValid c b) k = Changeset_GetError c k)
    as Hflag by reflexivity.
  destruct (smap.lookup fieldName (data cs)) as [value|].
  2:{ rewrite andb_true_r.
      split; [|split; [|split; [|split]]]; try reflexivity.
      intros k. destruct (k =? fieldName); now rewrite app_nil_r. }
  destruct value as [|b|k0 n|k0 x|str|t|name repr];
    cbn [Validate LengthValidator_Validate].
  5:{ destruct ((0 <? min)%Z && (Z.of_nat (String.length str) <? min)%Z);
        destruct ((0 <? max)%Z && (max <? Z.of_nat (String.length str))%Z);
        cbn [app]; rewrite ?andb_true_r, ?andb_false_r;
        (split; [|split; [|split; [|split]]]);
        try reflexivity; try discriminate;
        try (intros [H|H]; discriminate);
        intros k; rewrite ?Hflag, ?GetError_addError, ?Hflag,
          ?GetError_addError;
        destruct (k =? fieldName);
        rewrite <- ?app_assoc; now rewrite ?app_nil_r. }
  all: rewrite ?andb_true_r, ?andb_false_r;
    (split; [|split; [|split; [|split]]]);
    try reflexivity; try discriminate;
    try (intros [H|H]; discriminate);
    intros k; rewrite ?Hflag, ?GetError_addError;
    destruct (k =? fieldName); now rewrite ?app_nil_r.
Qed.

End ChangesetFacts.

(** * Registries *)

Import migration repository.

Section RegistryFacts.

Context {rt : GoRuntime}.

(** X28: a schema registry lists exactly the names that were
    registered, each once however often it was registered, and whatever
    was registered under them.  [Get] answers a name with what was
    registered last under it, and with nil for a name never registered.
    [Register] accepts the nil schema: a name whose last registration
    was nil is listed although [Get] answers nil for it, as for the
    name users registered with nil alone; a name that [Get] answers
    with a schema is always listed. *)
Theorem SchemaRegistry_names (l : list (string * Schema)) (name : string) :
  let r := registryOf l in
  SchemaRegistry_Get r name
  = match smap.lookup name (rev l) with
    | Some schema => schema
    | None => None
    end
  /\ NoDup (SchemaRegistry_GetAllSchemaNames r)
  /\ (List.In name (SchemaRegistry_GetAllSchemaNames r)
      <-> List.In name (map fst l))
  /\ (SchemaRegistry_Get r name <> None
      -> List.In name (SchemaRegistry_GetAllSchemaNames r))
  /\ (SchemaRegistry_Get (registryOf [("users", None)]) "users" = None
      /\ SchemaRegistry_GetAllSchemaNames (registryOf [("users", None)])
         = ["users"]).
Proof.
  cbn zeta.
  assert (smap.lookup name (schemas (registryOf l))
          = smap.lookup name (rev l)) as Hlast.
  { unfold registryOf.
    induction l as [|[k s] l IH] using rev_ind; [reflexivity|].
    rewrite fold_left_app, rev_app_distr.
    cbn [fold_left rev app fst snd SchemaRegistry_Register schemas
         smap.lookup].
    rewrite lookup_insert. now rewrite IH. }
  assert (List.In name (SchemaRegistry_GetAllSchemaNames (registryOf l))
          <-> smap.lookup name (schemas (registryOf l)) <> None) as Hlisted.
  { unfold SchemaRegistry_GetAllSchemaNames. rewrite in_map_iff. split.
    - intros ([k s] & Hk & Hin). cbn in Hk. subst k.
      apply entries_In in Hin. congruence.
    - destruct (smap.lookup name (schemas (registryOf l))) as [s|] eqn:Hs;
        [|congruence].
      intros _. exists (name, s). split; [reflexivity|].
      now apply entries_In. }
  split; [|split; [|split; [|split]]].
  - unfold SchemaRegistry_Get. now rewrite Hlast.
  - apply entries_NoDup.
  - rewrite Hlisted, Hlast, in_rev, <- map_rev. split.
    + intros Hbound.
      destruct (in_dec string_dec name (map fst (rev l))) as [Hin|Hout];
        [exact Hin|].
      now apply lookup_not_In in Hout.
    + intros Hin Hnone. now apply lookup_not_In in Hnone.
  - intros Hanswer. apply Hlisted. unfold SchemaRegistry_Get in Hanswer.
    destruct (smap.lookup name (schemas (registryOf l))); congruence.
  - split; reflexivity.
Qed.

(** X29: [Register] of a migrator succeeds exactly when the version,
    the description and the list of up statements are not empty.  A
    failed call leaves the migrator as it was; a successful call binds
    the version to the migration, replacing without notice a migration
    registered earlier under that version, and changes no other
    version. *)
Theorem Migrator_Register_outcome (m : Migrator) (mig : Migration) :
  let result := Migrator_Register m mig in
  (snd result = None
   <-> Version mig <> "" /\ Description mig <> "" /\ UpSQL mig <> [])
  /\ (snd result <> None -> fst result = m)
  /\ (snd result = None ->
      forall version,
        smap.lookup version (migrations (fst result))
        = if version =? Version mig then Some mig
          else smap.lookup version (migrations m)).
Proof.
  unfold Migrator_Register.
  destruct (Version mig =? "") eqn:Hversion; cbn [fst snd].
  { apply String.eqb_eq in Hversion.
    repeat split; try discriminate. now intros [Hne _]. }
  destruct (Description mig =? "") eqn:Hdescription; cbn [fst snd].
  { apply String.eqb_eq in Hdescription.
    repeat split; try discriminate. now intros (_ & Hne & _). }
  apply String.eqb_neq in Hversion, Hdescription.
  destruct (UpSQL mig) as [|statement statements]; cbn [fst snd].
  { repeat split; try discriminate. now intros (_ & _ & Hne). }
  repeat split; try assumption; try discriminate; try contradiction.
  intros _ version. cbn [migrations]. apply lookup_insert.
Qed.

Variable Adapter : Type.

(** X30: [NewRepository] returns a repository or an error, never both
    and never neither.  Right after [RegisterAdapter] of a factory, a
    configuration that asks for the name of that factory is served by
    it, whatever factory held the name before, unless the name is
    empty: a factory registered under the empty name is out of
    reach. *)
Theorem NewRepository_outcome
    (adapterFactories : smap.t (AdapterFactory Adapter))
    (factory : AdapterFactory Adapter) (config : option (Config)) :
  (fst (NewRepository Adapter adapterFactories config) = None
   <-> snd (NewRepository Adapter adapterFactories config) <> None)
  /\ forall cfg,
       Config_Adapter cfg = AdapterFactory_Name Adapter factory ->
       NewRepository Adapter
         (RegisterAdapter Adapter adapterFactories factory) (Some cfg)
       = if Config_Adapter cfg =? "" then
           (None, Some "adapter type must be specified")
         else
           match AdapterFactory_Create Adapter factory cfg with
           | (_, Some err) =>
               (None, Some ("failed to create adapter: " ++ Error err))
           | (created, None) =>
               (Some {| adapter := created |}, None)
           end.
Proof.
  split.
  - unfold NewRepository.
    destruct config as [cfg|]; [|cbn; split; [discriminate|reflexivity]].
    destruct (Config_Adapter cfg =? "");
      [cbn; split; [discriminate|reflexivity]|].
    destruct (smap.lookup (Config_Adapter cfg) adapterFactories)
      as [found|]; [|cbn; split; [discriminate|reflexivity]].
    destruct (AdapterFactory_Create Adapter found cfg) as [created [err|]];
      cbn; split; try discriminate; try reflexivity; contradiction.
  - intros cfg Hname.
    unfold NewRepository, RegisterAdapter.
    destruct (Config_Adapter cfg =? ""); [reflexivity|].
    now rewrite lookup_insert, Hname, String.eqb_refl.
Qed.

End RegistryFacts.
